(** * Directory sessions and permission gating of the web file-system explorer

    A shallow embedding of [app/utils/file-system.ts] and of the script part
    of the page component that drives it (the session controller), with the
    properties of the written specification stated and settled against it.

    The browser is an external collaborator.  Every asynchronous host call
    ([queryPermission], [createWritable], [write], ...) is a field of a
    [HostOps] record over an arbitrary host state: a call either returns a
    value or throws, and may change the host.  The program itself is written
    in a small monad that threads the world, may throw, and emits the
    observable events of a run (host calls, notifications, progress
    callbacks) in the order they happen. *)

From Stdlib Require Import ZArith QArith Qround String List Lia.
From Stdlib Require Import Sorting.Sorted Sorting.Permutation.
From Stdlib Require Import Structures.OrdersEx.
From stdpp Require Import base option list gmap strings pretty.

Close Scope Q_scope.
Open Scope string_scope.
Open Scope list_scope.
Open Scope nat_scope.

(** ** Data model *)

Module Model.

(** [kind: 'file' | 'directory'] *)
Inductive Kind := KFile | KDirectory.

#[global] Instance Kind_eq_dec : EqDecision Kind.
Proof. solve_decision. Defined.

(** A [FileSystemHandle]: an opaque capability ([handleId] stands for the
    identity of the object) carrying the [name] and [kind] fields. *)
Record Handle := mkHandle {
  handleId : nat;
  handleName : string;
  handleKind : Kind }.

#[global] Instance Handle_eq_dec : EqDecision Handle.
Proof. solve_decision. Defined.

(** [PermissionState] and [FileSystemPermissionMode] of the host API. *)
Inductive PermissionState := Granted | Denied | Prompt.
Inductive PermissionMode := ModeRead | ModeReadWrite.

#[global] Instance PermissionState_eq_dec : EqDecision PermissionState.
Proof. solve_decision. Defined.

(** A thrown JavaScript error: its [name] and [message]. *)
Record HostError := mkError {
  errName : string;
  errMessage : string }.

(** A [File] (a [Blob] with a name): [file.size] is the number of bytes. *)
Record File := mkFile {
  fileName : string;
  fileBytes : list Byte.byte;
  fileLastModified : Z;
  fileType : string }.

Definition fileSize (f : File) : nat := length (fileBytes f).

(** [Blob.slice(start, end)]: the bytes from [start] up to [end], both
    clamped to the size of the blob. *)
Definition slice (f : File) (start stop : nat) : list Byte.byte :=
  take (stop - start) (drop start (fileBytes f)).

(** [EntryItem] of [shared/types]: the optional fields are set for files. *)
Record EntryItem := mkEntryItem {
  name : string;
  kind : Kind;
  handle : Handle;
  size : option nat;
  lastModified : option Z;
  type : option string }.

(** [StoredDirectoryInfo]: the serialisable half of an authorised root. *)
Record StoredDirectoryInfo := mkInfo {
  id : string;
  infoName : string }.

(** A frame of [currentPathDirectories]. *)
Record Frame := mkFrame {
  frameName : string;
  frameHandle : Handle }.

(** A [FileSystemWritableFileStream], as the host names it. *)
Definition Writable := nat.

(** The JavaScript values that flow out of [a && b] in the handle store
    helpers: [undefined], a boolean, or a handle object. *)
Inductive JsValue :=
| JsUndefined
| JsBoolean (b : bool)
| JsHandle (h : Handle).

Definition truthy (v : JsValue) : bool :=
  match v with
  | JsUndefined => false
  | JsBoolean b => b
  | JsHandle _ => true
  end.

Definition optionToJs (o : option Handle) : JsValue :=
  match o with
  | Some h => JsHandle h
  | None => JsUndefined
  end.

(** ** Observable events *)

Inductive Color := ColorError | ColorWarning | ColorSuccess.

(** The argument of [toast.add]. *)
Record Toast := mkToast {
  title : string;
  description : string;
  color : Color }.

(** The calls the program makes on the host. *)
Inductive HostCall :=
| CQueryPermission (h : Handle) (m : PermissionMode)
| CRequestPermission (h : Handle) (m : PermissionMode)
| CGetDirectoryHandle (parent : Handle) (child : string)
| CGetFileHandle (parent : Handle) (child : string)
| CRemoveEntry (parent : Handle) (child : string) (recursive : bool)
| CCreateWritable (fh : Handle)
| CWrite (w : Writable) (chunk : list Byte.byte)
| CClose (w : Writable)
| CGetFile (fh : Handle)
| CValues (dir : Handle)
| CIsSameEntry (h1 h2 : Handle)
| CShowDirectoryPicker
| CDeleteConfirmModal (item : EntryItem)
| CCreateFolderModal (existingFolders : list string).

(** What an observer of a run sees, in order: a host call and whether it
    returned ([true]) or threw ([false]); a notification; an invocation of
    the progress callback of [writeFile]; a [console.error] line. *)
Inductive Event :=
| EvHost (c : HostCall) (ok : bool)
| EvToast (t : Toast)
| EvProgress (q : Q)
| EvConsole (label : string) (e : HostError).

(** ** Results of fallible computations *)

Inductive Outcome (A : Type) :=
| Ok (a : A)
| Thrown (e : HostError).
Arguments Ok {A} a.
Arguments Thrown {A} e.

Definition isOk {A} (r : Outcome A) : bool :=
  match r with Ok _ => true | Thrown _ => false end.

(** ** The host

    [H] is the state of the browser and of the user (files on disk, granted
    permissions, answers to dialogs).  Nothing is assumed about it. *)
Record HostOps (H : Type) := mkHostOps {
  queryPermission : Handle -> PermissionMode -> H -> Outcome PermissionState * H;
  requestPermission : Handle -> PermissionMode -> H -> Outcome PermissionState * H;
  (* [getDirectoryHandle(name, {create: true})] *)
  hostGetDirectoryHandle : Handle -> string -> H -> Outcome Handle * H;
  (* [getFileHandle(name, {create: true})] *)
  hostGetFileHandle : Handle -> string -> H -> Outcome Handle * H;
  removeEntry : Handle -> string -> bool -> H -> Outcome unit * H;
  createWritable : Handle -> H -> Outcome Writable * H;
  write : Writable -> list Byte.byte -> H -> Outcome unit * H;
  close : Writable -> H -> Outcome unit * H;
  getFile : Handle -> H -> Outcome File * H;
  (* the children that [for await (... of handle.values())] yields *)
  values : Handle -> H -> Outcome (list Handle) * H;
  hostIsSameEntry : Handle -> Handle -> H -> Outcome bool * H;
  showDirectoryPicker : H -> Outcome Handle * H;
  randomUUID : H -> string * H;
  (* [String.prototype.localeCompare] in the host's locale *)
  localeCompare : string -> string -> Z;
  (* the two modal dialogs, awaited through [instance.result] *)
  deleteConfirmModal : EntryItem -> H -> Outcome bool * H;
  createFolderModal : list string -> H -> Outcome (option string) * H }.

Arguments queryPermission {H}.
Arguments requestPermission {H}.
Arguments hostGetDirectoryHandle {H}.
Arguments hostGetFileHandle {H}.
Arguments removeEntry {H}.
Arguments createWritable {H}.
Arguments write {H}.
Arguments close {H}.
Arguments getFile {H}.
Arguments values {H}.
Arguments hostIsSameEntry {H}.
Arguments showDirectoryPicker {H}.
Arguments randomUUID {H}.
Arguments localeCompare {H}.
Arguments deleteConfirmModal {H}.
Arguments createFolderModal {H}.

(** ** The state of the page component *)

Inductive View := ViewHome | ViewDirectory.

Record Session := mkSession {
  currentView : View;
  storedDirectories : list StoredDirectoryInfo;
  currentPathDirectories : list Frame;
  fileList : list EntryItem;
  loading : bool;
  uploading : bool;
  uploadProgress : gmap string Z;
  uploadQueue : list File }.

Definition initialSession : Session :=
  mkSession ViewHome [] [] [] false false ∅ [].

(** The world: the host, the key-value store of [idb-keyval] (the Handle
    Store) and the reactive state of the page. *)
Record World (H : Type) := mkWorld {
  host : H;
  idb : gmap string Handle;
  session : Session }.
Arguments mkWorld {H}.
Arguments host {H}.
Arguments idb {H}.
Arguments session {H}.

End Model.
Export Model.

(** ** The monad of asynchronous, fallible, observable code *)

Module Run.

Section Monad.
Context {H : Type}.

(** A computation takes the world to an outcome, a new world and the events
    it emitted.  A throw keeps the world and the events reached so far, as
    JavaScript side effects survive an exception. *)
Definition M (A : Type) : Type := World H -> Outcome A * World H * list Event.

Definition ret {A} (a : A) : M A := fun w => (Ok a, w, []).

Definition throw {A} (e : HostError) : M A := fun w => (Thrown e, w, []).

Definition bind {A B} (m : M A) (k : A -> M B) : M B :=
  fun w =>
    match m w with
    | (Ok a, w1, ev1) =>
        match k a w1 with
        | (r, w2, ev2) => (r, w2, ev1 ++ ev2)
        end
    | (Thrown e, w1, ev1) => (Thrown e, w1, ev1)
    end.

(** [try { body } catch (error) { handler }] *)
Definition tryCatch {A} (body : M A) (handler : HostError -> M A) : M A :=
  fun w =>
    match body w with
    | (Ok a, w1, ev1) => (Ok a, w1, ev1)
    | (Thrown e, w1, ev1) =>
        match handler e w1 with
        | (r, w2, ev2) => (r, w2, ev1 ++ ev2)
        end
    end.

(** [try { body } finally { cleanup }]: the cleanup runs on both exits and
    the outcome of the body stands unless the cleanup itself throws. *)
Definition tryFinally {A} (body : M A) (cleanup : M unit) : M A :=
  fun w =>
    match body w with
    | (r, w1, ev1) =>
        match cleanup w1 with
        | (Ok _, w2, ev2) => (r, w2, ev1 ++ ev2)
        | (Thrown e, w2, ev2) => (Thrown e, w2, ev1 ++ ev2)
        end
    end.

Definition emit (e : Event) : M unit := fun w => (Ok tt, w, [e]).

(** A call on the host, recorded with whether it returned or threw. *)
Definition hostCall {A} (c : HostCall) (op : H -> Outcome A * H) : M A :=
  fun w =>
    match op (host w) with
    | (r, h') => (r, mkWorld h' (idb w) (session w), [EvHost c (isOk r)])
    end.

Definition getSession : M Session := fun w => (Ok (session w), w, []).

Definition modifySession (f : Session -> Session) : M unit :=
  fun w => (Ok tt, mkWorld (host w) (idb w) (f (session w)), []).

(** The three operations of [idb-keyval] on its default store.  [get]
    resolves to [undefined] for a missing key and [del] resolves to
    [undefined] ([Promise<void>]). *)
Definition idbGet (key : string) : M (option Handle) :=
  fun w => (Ok (idb w !! key), w, []).

Definition idbSet (key : string) (value : Handle) : M unit :=
  fun w => (Ok tt, mkWorld (host w) (<[key := value]> (idb w)) (session w), []).

Definition idbDel (key : string) : M JsValue :=
  fun w =>
    (Ok JsUndefined, mkWorld (host w) (delete key (idb w)) (session w), []).

Definition toastAdd (t : Toast) : M unit := emit (EvToast t).

(** A synchronous callback [(progress: number) => void]: it runs on the
    page state, may throw, and cannot await the host. *)
Definition Callback : Type := Q -> Session -> Outcome unit * Session.

(** Calling the callback; the invocation itself is an observable event. *)
Definition invoke (onProgress : Callback) (progress : Q) : M unit :=
  fun w =>
    match onProgress progress (session w) with
    | (r, s') => (r, mkWorld (host w) (idb w) s', [EvProgress progress])
    end.

Definition consoleError (label : string) (e : HostError) : M unit :=
  emit (EvConsole label e).

End Monad.

Arguments M : clear implicits.

Declare Scope run_scope.
Delimit Scope run_scope with run.
Notation "'let*' x ':=' m 'in' k" := (bind m (fun x => k))
  (at level 10, x name, m at level 100, k at level 200) : run_scope.
Notation "m ';;;' k" := (bind m (fun _ => k))
  (at level 100, k at level 200, right associativity) : run_scope.

(** Projections of a finished run. *)
Definition outcomeOf {H A} (r : Outcome A * World H * list Event) : Outcome A :=
  fst (fst r).
Definition worldOf {H A} (r : Outcome A * World H * list Event) : World H :=
  snd (fst r).
Definition eventsOf {H A} (r : Outcome A * World H * list Event) : list Event :=
  snd r.

Ltac run_simpl :=
  cbn [fst snd outcomeOf worldOf eventsOf isOk app host idb session] in *.

End Run.
Export Run.
Open Scope run_scope.

(** ** Session field updates *)

Module Upd.

Definition setCurrentView (v : View) (s : Session) : Session :=
  mkSession v (storedDirectories s) (currentPathDirectories s) (fileList s)
    (loading s) (uploading s) (uploadProgress s) (uploadQueue s).

Definition setStoredDirectories (l : list StoredDirectoryInfo) (s : Session) : Session :=
  mkSession (currentView s) l (currentPathDirectories s) (fileList s)
    (loading s) (uploading s) (uploadProgress s) (uploadQueue s).

Definition setCurrentPathDirectories (l : list Frame) (s : Session) : Session :=
  mkSession (currentView s) (storedDirectories s) l (fileList s)
    (loading s) (uploading s) (uploadProgress s) (uploadQueue s).

Definition setFileList (l : list EntryItem) (s : Session) : Session :=
  mkSession (currentView s) (storedDirectories s) (currentPathDirectories s) l
    (loading s) (uploading s) (uploadProgress s) (uploadQueue s).

Definition setLoading (b : bool) (s : Session) : Session :=
  mkSession (currentView s) (storedDirectories s) (currentPathDirectories s)
    (fileList s) b (uploading s) (uploadProgress s) (uploadQueue s).

Definition setUploading (b : bool) (s : Session) : Session :=
  mkSession (currentView s) (storedDirectories s) (currentPathDirectories s)
    (fileList s) (loading s) b (uploadProgress s) (uploadQueue s).

Definition setUploadProgress (p : gmap string Z) (s : Session) : Session :=
  mkSession (currentView s) (storedDirectories s) (currentPathDirectories s)
    (fileList s) (loading s) (uploading s) p (uploadQueue s).

Definition setUploadQueue (q : list File) (s : Session) : Session :=
  mkSession (currentView s) (storedDirectories s) (currentPathDirectories s)
    (fileList s) (loading s) (uploading s) (uploadProgress s) q.

End Upd.
Export Upd.

(** ** [app/utils/file-system.ts] *)

Module FileSystem.

Section WithHost.
Context {H : Type} (ops : HostOps H).

(** [requestDirectoryPermission(handle, mode = 'readwrite')] *)
Definition requestDirectoryPermission (handle : Handle) (mode : PermissionMode)
  : M H bool :=
  tryCatch
    (let* permission :=
       hostCall (CQueryPermission handle mode) (queryPermission ops handle mode) in
     if decide (permission = Granted) then ret true
     else if decide (permission = Prompt) then
       let* requestPermission' :=
         hostCall (CRequestPermission handle mode)
                  (requestPermission ops handle mode) in
       ret (bool_decide (requestPermission' = Granted))
     else ret false)
    (fun error =>
       consoleError "验证目录句柄失败:" error ;;;
       ret false).

(** [createNewDirectory(parentHandle, newDirName)] *)
Definition createNewDirectory (parentHandle : Handle) (newDirName : string)
  : M H Handle :=
  hostCall (CGetDirectoryHandle parentHandle newDirName)
           (hostGetDirectoryHandle ops parentHandle newDirName).

(** [createNewFile(parentHandle, newFileName)] *)
Definition createNewFile (parentHandle : Handle) (newFileName : string)
  : M H Handle :=
  hostCall (CGetFileHandle parentHandle newFileName)
           (hostGetFileHandle ops parentHandle newFileName).

(** [deleteEntry(handle, name, isDirectory)] *)
Definition deleteEntry (handle : Handle) (name : string) (isDirectory : bool)
  : M H unit :=
  hostCall (CRemoveEntry handle name isDirectory)
           (removeEntry ops handle name isDirectory).

(** The label of the [console.error] line of [writeFile]. *)
Definition writeFailedLabel : string := "写入文件失败:".

(** [const chunkSize = 1024 * 1024] *)
Definition chunkSize : nat := 1024 * 1024.

(** A JavaScript number that is a quotient of two sizes, kept exact. *)
Definition ratio (offset total : nat) : Q :=
  Qmake (Z.of_nat offset) (Pos.of_nat total).

(** The [while (offset < file.size)] loop of [writeFile].  Each round moves
    [offset] forward by the size of the chunk it wrote, which is positive,
    so [file.size - offset] rounds are enough: [fuel] counts them. *)
Fixpoint writeLoop (fuel : nat) (writable : Writable) (file : File)
    (onProgress : Callback) (offset : nat) : M H unit :=
  if offset <? fileSize file then
    match fuel with
    | O => ret tt
    | S fuel' =>
        let chunk := slice file offset (offset + chunkSize) in
        hostCall (CWrite writable chunk) (write ops writable chunk) ;;;
        let offset' := offset + length chunk in
        invoke onProgress (ratio offset' (fileSize file)) ;;;
        writeLoop fuel' writable file onProgress offset'
    end
  else ret tt.

(** [writeFile(handle, file, onProgress)] *)
Definition writeFile (handle : Handle) (file : File)
    (onProgress : Callback) : M H bool :=
  tryCatch
    (let* writable :=
       hostCall (CCreateWritable handle) (createWritable ops handle) in
     writeLoop (fileSize file) writable file onProgress 0 ;;;
     hostCall (CClose writable) (close ops writable) ;;;
     ret true)
    (fun error =>
       consoleError writeFailedLabel error ;;;
       ret false).

(** [readFile(handle)] *)
Definition readFile (handle : Handle) : M H File :=
  hostCall (CGetFile handle) (getFile ops handle).

(** The comparator handed to [entryItems.sort]. *)
Definition compareEntryItems (a b : EntryItem) : Z :=
  if decide (kind a = kind b) then localeCompare ops (name a) (name b)
  else if decide (kind a = KDirectory) then (-1)%Z else 1%Z.

(** [Array.prototype.sort(compare)] is a builtin of the language: it is
    stable and, for a consistent comparator, returns the elements in
    non-decreasing order.  It is modelled by stable insertion from the
    right: [x] goes before the first [y] with [compare x y <= 0]. *)
Fixpoint sortInsert {A} (compare : A -> A -> Z) (x : A) (l : list A) : list A :=
  match l with
  | [] => [x]
  | y :: l' =>
      if (compare x y <=? 0)%Z then x :: y :: l'
      else y :: sortInsert compare x l'
  end.

Fixpoint arraySort {A} (compare : A -> A -> Z) (l : list A) : list A :=
  match l with
  | [] => []
  | x :: l' => sortInsert compare x (arraySort compare l')
  end.

(** The body of the [for await] loop of [listDirectoryEntryItems]. *)
Definition entryItemOf (entry : Handle) : M H EntryItem :=
  if decide (handleKind entry = KFile) then
    let* file := hostCall (CGetFile entry) (getFile ops entry) in
    ret (mkEntryItem (handleName entry) (handleKind entry) entry
           (Some (fileSize file)) (Some (fileLastModified file))
           (Some (fileType file)))
  else
    ret (mkEntryItem (handleName entry) (handleKind entry) entry
           None None None).

Fixpoint collectEntryItems (entries : list Handle) : M H (list EntryItem) :=
  match entries with
  | [] => ret []
  | entry :: rest =>
      let* item := entryItemOf entry in
      let* items := collectEntryItems rest in
      ret (item :: items)
  end.

(** [listDirectoryEntryItems(handle)].  The host hands over the children in
    one call here, where the source pulls them one by one and opens each
    file in between; the entry items built and their order are the same. *)
Definition listDirectoryEntryItems (handle : Handle) : M H (list EntryItem) :=
  let* entries := hostCall (CValues handle) (values ops handle) in
  let* entryItems := collectEntryItems entries in
  ret (arraySort compareEntryItems entryItems).

(** [saveDirectoryHandle(handle)] *)
Definition saveDirectoryHandle (handle : Handle) : M H string :=
  let* id := (fun w =>
                match randomUUID ops (host w) with
                | (u, h') => (Ok u, mkWorld h' (idb w) (session w), [])
                end) in
  idbSet id handle ;;;
  ret id.

(** [getDirectoryHandle(id)] *)
Definition getDirectoryHandle (id : string) : M H (option Handle) :=
  idbGet id.

(** [removeDirectoryHandle(id)]: [await get(id) && await del(id)].  The
    value of [a && b] is [a] when [a] is falsy and [b] otherwise. *)
Definition removeDirectoryHandle (id : string) : M H JsValue :=
  let* found := idbGet id in
  if truthy (optionToJs found) then idbDel id
  else ret (optionToJs found).

(** [isSameEntry(handle1?, handle2?)]:
    [handle1 && handle2 && await handle1.isSameEntry(handle2)] *)
Definition isSameEntry (handle1 handle2 : option Handle) : M H JsValue :=
  if truthy (optionToJs handle1) then
    if truthy (optionToJs handle2) then
      match handle1, handle2 with
      | Some h1, Some h2 =>
          let* same := hostCall (CIsSameEntry h1 h2) (hostIsSameEntry ops h1 h2) in
          ret (JsBoolean same)
      | _, _ => ret JsUndefined
      end
    else ret (optionToJs handle2)
  else ret (optionToJs handle1).

End WithHost.

End FileSystem.
Export FileSystem.

(** ** The session controller: the script of the page component *)

Module Controller.

(** The double quote that the message templates put around names. *)
Definition dq : string := String (Ascii.ascii_of_nat 34) EmptyString.

Definition quoted (s : string) : string := dq ++ s ++ dq.

(** *** Numbers

    A JavaScript number is a binary64 value.  [offset / file.size] and
    [progress * 100] are each rounded to the nearest such value, ties to the
    even significand; the operands met here are far from the subnormal and
    the overflow ranges, so the significand always has 53 bits. *)

Definition pow2 (e : Z) : Q :=
  if (0 <=? e)%Z then inject_Z (2 ^ e) else Qinv (inject_Z (2 ^ (- e))).

(** [floor (log2 q)] for a positive [q]. *)
Definition binade (q : Q) : Z :=
  let k := (Z.log2 (Qnum q) - Z.log2 (Zpos (Qden q)))%Z in
  if Qle_bool (pow2 k) q then k else (k - 1)%Z.

(** The nearest integer, ties to even. *)
Definition roundHalfEven (x : Q) : Z :=
  let f := Qfloor x in
  match Qcompare (Qminus x (inject_Z f)) (Qmake 1 2) with
  | Lt => f
  | Gt => (f + 1)%Z
  | Eq => if Z.even f then f else (f + 1)%Z
  end.

(** The binary64 value nearest to a non-negative [q]. *)
Definition toDouble (q : Q) : Q :=
  if (Qnum q <=? 0)%Z then 0%Q
  else
    let e := (binade q - 52)%Z in
    Qmult (inject_Z (roundHalfEven (Qdiv q (pow2 e)))) (pow2 e).

(** [Math.round(x)]: the nearest integer, ties toward positive infinity. *)
Definition mathRound (x : Q) : Z := Qfloor (Qplus x (Qmake 1 2)).

(** [Math.round(progress * 100)], where [progress] is the quotient
    [offset / file.size] as the source computed it: the quotient is rounded
    to a binary64 value, and so is its product with 100. *)
Definition percent (progress : Q) : Z :=
  mathRound (toDouble (Qmult (toDouble progress) (Qmake 100 1))).

(** [table[key] = v] on a plain object used as a table of numbers: an own
    property is created or updated, except under the key [__proto__], where
    the assignment reaches the setter inherited from [Object.prototype],
    which ignores a number and stores nothing. *)
Definition assign (key : string) (v : Z) (table : gmap string Z)
  : gmap string Z :=
  if decide (key = "__proto__") then table else <[key := v]> table.

(** [fileList.value.find((item) => item.name === file.name && item.kind === 'file')] *)
Definition findExistingFile (items : list EntryItem) (fname : string)
  : option EntryItem :=
  List.find (fun item =>
               bool_decide (name item = fname) && bool_decide (kind item = KFile))
            items.

Arguments percent : simpl never.
Arguments findExistingFile : simpl never.

Section WithHost.
Context {H : Type} (ops : HostOps H).

(** [uploadProgress.value[key] = v] *)
Definition setProgress (key : string) (v : Z) : M H unit :=
  modifySession (fun s => setUploadProgress (assign key v (uploadProgress s)) s).

(** [removeDirectory(id)] *)
Definition removeDirectory (id' : string) : M H unit :=
  removeDirectoryHandle id' ;;;
  modifySession (fun s =>
    setStoredDirectories
      (List.filter (fun dir => negb (bool_decide (id dir = id')))
                   (storedDirectories s)) s).

(** [enterDirectory(directoryData)] *)
Definition enterDirectory (directoryData : StoredDirectoryInfo) : M H unit :=
  modifySession (setLoading true) ;;;
  tryFinally
    (tryCatch
       (let* directoryHandle := getDirectoryHandle (id directoryData) in
        let* valid :=
          match directoryHandle with
          | Some h => requestDirectoryPermission ops h ModeReadWrite
          | None => ret false
          end in
        match directoryHandle, valid with
        | Some h, true =>
            modifySession (fun s =>
              setCurrentPathDirectories
                (currentPathDirectories s ++ [mkFrame (infoName directoryData) h]) s) ;;;
            modifySession (setCurrentView ViewDirectory) ;;;
            let* items := listDirectoryEntryItems ops h in
            modifySession (setFileList items)
        | _, _ =>
            removeDirectory (id directoryData) ;;;
            toastAdd (mkToast "目录权限已失效" "目录权限已失效，已从列表中移除"
                              ColorWarning)
        end)
       (fun error =>
          consoleError "进入目录失败:" error ;;;
          toastAdd (mkToast "进入目录失败" "无法访问该目录，请重新授权" ColorError)))
    (modifySession (setLoading false)).

(** [enterSubDirectory(item)] *)
Definition enterSubDirectory (item : EntryItem) : M H unit :=
  if decide (kind item = KDirectory) then
    modifySession (fun s =>
      setCurrentPathDirectories
        (currentPathDirectories s ++ [mkFrame (name item) (handle item)]) s) ;;;
    let* items := listDirectoryEntryItems ops (handle item) in
    modifySession (setFileList items)
  else ret tt.

(** [goHome()] *)
Definition goHome : M H unit :=
  modifySession (setCurrentView ViewHome) ;;;
  modifySession (setCurrentPathDirectories []) ;;;
  modifySession (setFileList []).

(** The duplicate search of [addNewDirectory]:
    [for (const directoryInfo of storedDirectories.value)] with its [break]. *)
Fixpoint findSameEntry (handle : Handle) (infos : list StoredDirectoryInfo)
  : M H bool :=
  match infos with
  | [] => ret false
  | directoryInfo :: rest =>
      let* directoryHandle := getDirectoryHandle (id directoryInfo) in
      let* same := isSameEntry ops (Some handle) directoryHandle in
      if truthy same then ret true
      else findSameEntry handle rest
  end.

(** [addNewDirectory()] *)
Definition addNewDirectory : M H unit :=
  tryFinally
    (tryCatch
       (modifySession (setLoading true) ;;;
        let* handle :=
          hostCall CShowDirectoryPicker (showDirectoryPicker ops) in
        let* s := getSession in
        let* exists' := findSameEntry handle (storedDirectories s) in
        if exists' then
          toastAdd (mkToast "目录已存在"
                      ("目录 " ++ quoted (handleName handle) ++ " 已经在列表中")
                      ColorWarning)
        else
          let* handleId := saveDirectoryHandle ops handle in
          modifySession (fun s =>
            setStoredDirectories
              (storedDirectories s ++ [mkInfo handleId (handleName handle)]) s) ;;;
          toastAdd (mkToast "目录添加成功"
                      ("已添加目录: " ++ handleName handle) ColorSuccess))
       (fun error =>
          if decide (errName error = "AbortError") then ret tt
          else toastAdd (mkToast "添加目录失败" (errMessage error) ColorError)))
    (modifySession (setLoading false)).

(** The notifications of [handleFileUpload]. *)
Definition toastSkipped (fname : string) : Toast :=
  mkToast "文件已存在" ("文件 " ++ quoted fname ++ " 已存在，已跳过上传")
          ColorWarning.

Definition toastUploaded (fname : string) : Toast :=
  mkToast "上传成功" ("文件 " ++ quoted fname ++ " 上传完成") ColorSuccess.

Definition toastUploadFailed (fname : string) (error : HostError) : Toast :=
  mkToast "上传失败"
          ("文件 " ++ quoted fname ++ " 上传失败: " ++ errMessage error)
          ColorError.

(** The body of [for (const file of fileArray)] in [handleFileUpload]. *)
Definition uploadFile (targetDirectoryHandle : Handle) (file : File)
  : M H unit :=
  setProgress (fileName file) 0 ;;;
  let* s := getSession in
  match findExistingFile (fileList s) (fileName file) with
  | Some existingFile =>
      toastAdd (toastSkipped (fileName file)) ;;;
      setProgress (fileName file) (-1)
  | None =>
      tryCatch
        (let* fileHandle := createNewFile ops targetDirectoryHandle (fileName file) in
         writeFile ops fileHandle file
           (fun progress s =>
              (Ok tt, setUploadProgress
                        (assign (fileName file) (percent progress)
                                (uploadProgress s)) s)) ;;;
         setProgress (fileName file) 100 ;;;
         toastAdd (toastUploaded (fileName file)))
        (fun error =>
           setProgress (fileName file) (-1) ;;;
           toastAdd (toastUploadFailed (fileName file) error))
  end.

Fixpoint uploadFiles (targetDirectoryHandle : Handle) (fileArray : list File)
  : M H unit :=
  match fileArray with
  | [] => ret tt
  | file :: rest =>
      uploadFile targetDirectoryHandle file ;;;
      uploadFiles targetDirectoryHandle rest
  end.

(** The page stays live while a batch is uploaded.  The loop awaits the
    host in every turn, and while it waits the other handlers of the page
    (Home, Back, a click on a row, delete, a second drop) may run and change
    what is displayed.  A turn reads [fileList.value] once, before its first
    [await], so what the rest of the page does during a turn reaches the
    batch through the snapshot that the next turn reads.  [others] gives,
    turn by turn, what the rest of the page did to the world since the
    previous turn; its events are not the batch's.  With no interference
    the loop is [uploadFiles]. *)
Definition interfere (other : World H -> World H) : M H unit :=
  fun w => (Ok tt, other w, []).

(** Nothing happened on the page since the previous turn. *)
Definition untouched (w : World H) : World H := w.

Fixpoint uploadFilesAmid (others : list (World H -> World H))
    (targetDirectoryHandle : Handle) (fileArray : list File) : M H unit :=
  match fileArray with
  | [] => ret tt
  | file :: rest =>
      interfere (hd untouched others) ;;;
      uploadFile targetDirectoryHandle file ;;;
      uploadFilesAmid (tl others) targetDirectoryHandle rest
  end.

Definition toastNoPermission (what : string) : Toast :=
  mkToast "权限不足" what ColorError.

(** [handleFileUpload(files)] *)
Definition handleFileUpload (files : list File) : M H unit :=
  let* s := getSession in
  match last (currentPathDirectories s) with
  | None =>
      toastAdd (mkToast "上传失败" "请先选择一个目录" ColorError)
  | Some top =>
      let targetDirectoryHandle := frameHandle top in
      let* hasWritePermission :=
        requestDirectoryPermission ops targetDirectoryHandle ModeReadWrite in
      if negb hasWritePermission then
        toastAdd (toastNoPermission "当前目录没有写入权限，请重新选择目录")
      else
        modifySession (setUploading true) ;;;
        let fileArray := files in
        modifySession (setUploadQueue fileArray) ;;;
        tryFinally
          (uploadFiles targetDirectoryHandle fileArray ;;;
           let* items := listDirectoryEntryItems ops targetDirectoryHandle in
           modifySession (setFileList items))
          (modifySession (setUploading false) ;;;
           modifySession (setUploadQueue []) ;;;
           modifySession (setUploadProgress ∅))
  end.

Definition kindLabel (k : Kind) : string :=
  match k with KDirectory => "文件夹" | KFile => "文件" end.

(** [deleteItem(item)] *)
Definition deleteItem (item : EntryItem) : M H unit :=
  let* s := getSession in
  match last (currentPathDirectories s) with
  | None =>
      toastAdd (mkToast "删除失败" "无法确定当前目录" ColorError)
  | Some top =>
      let targetDirectoryHandle := frameHandle top in
      let* hasWritePermission :=
        requestDirectoryPermission ops targetDirectoryHandle ModeReadWrite in
      if negb hasWritePermission then
        toastAdd (toastNoPermission "当前目录没有写入权限，无法删除文件")
      else
        tryCatch
          (let* shouldDelete :=
             hostCall (CDeleteConfirmModal item) (deleteConfirmModal ops item) in
           if negb shouldDelete then ret tt
           else
             hostCall (CRemoveEntry targetDirectoryHandle (name item)
                         (bool_decide (kind item = KDirectory)))
                      (removeEntry ops targetDirectoryHandle (name item)
                         (bool_decide (kind item = KDirectory))) ;;;
             toastAdd (mkToast "删除成功"
                         (kindLabel (kind item) ++ " " ++ quoted (name item)
                            ++ " 已删除") ColorSuccess) ;;;
             let* items := listDirectoryEntryItems ops targetDirectoryHandle in
             modifySession (setFileList items))
          (fun error =>
             toastAdd (mkToast "删除失败"
                         ("删除 " ++ quoted (name item) ++ " 失败: "
                            ++ errMessage error) ColorError))
  end.

(** [createNewFolder()] *)
Definition createNewFolder : M H unit :=
  let* s := getSession in
  match last (currentPathDirectories s) with
  | None =>
      toastAdd (mkToast "创建失败" "请先选择一个目录" ColorError)
  | Some top =>
      let targetDirectory := frameHandle top in
      let* hasWritePermission :=
        requestDirectoryPermission ops targetDirectory ModeReadWrite in
      if negb hasWritePermission then
        toastAdd (toastNoPermission "当前目录没有写入权限，无法创建文件夹")
      else
        tryCatch
          (let* s' := getSession in
           let existingFolders :=
             List.map name
               (List.filter (fun item => bool_decide (kind item = KDirectory))
                            (fileList s')) in
           let* folderName :=
             hostCall (CCreateFolderModal existingFolders)
                      (createFolderModal ops existingFolders) in
           match folderName with
           | None => ret tt
           | Some "" => ret tt
           | Some folderName' =>
               createNewDirectory ops targetDirectory folderName' ;;;
               toastAdd (mkToast "创建成功"
                           ("文件夹 " ++ quoted folderName' ++ " 创建成功")
                           ColorSuccess) ;;;
               let* items := listDirectoryEntryItems ops targetDirectory in
               modifySession (setFileList items)
           end)
          (fun error =>
             toastAdd (mkToast "创建失败"
                         ("创建文件夹失败: " ++ errMessage error) ColorError))
  end.

(** [goBack()] *)
Definition goBack : M H unit :=
  let* s := getSession in
  if decide (length (currentPathDirectories s) = 1) then goHome
  else
    modifySession (fun s =>
      setCurrentPathDirectories
        (removelast (currentPathDirectories s)) s) ;;;
    let* s' := getSession in
    match last (currentPathDirectories s') with
    | Some top =>
        let* items := listDirectoryEntryItems ops (frameHandle top) in
        modifySession (setFileList items)
    | None =>
        (* [undefined.values()]; the message is the one of V8 *)
        throw (mkError "TypeError"
                 "Cannot read properties of undefined (reading 'values')")
    end.

End WithHost.

End Controller.
Export Controller.

(** ** Reading event traces *)

Module Observe.

(** The permission requests (prompts) among the events of a run. *)
Definition isRequest (e : Event) : bool :=
  match e with
  | EvHost (CRequestPermission _ _) _ => true
  | _ => false
  end.

Definition isQuery (e : Event) : bool :=
  match e with
  | EvHost (CQueryPermission _ _) _ => true
  | _ => false
  end.

Definition requestCount (evs : list Event) : nat :=
  length (List.filter isRequest evs).

Definition queryCount (evs : list Event) : nat :=
  length (List.filter isQuery evs).

(** What a trace says was written, reported and failed. *)
Definition writtenChunk (e : Event) : option (list Byte.byte) :=
  match e with
  | EvHost (CWrite _ chunk) true => Some chunk
  | _ => None
  end.

Definition progressValue (e : Event) : option Q :=
  match e with
  | EvProgress q => Some q
  | _ => None
  end.

Definition writtenChunks (evs : list Event) : list (list Byte.byte) :=
  omap writtenChunk evs.

Definition bytesWritten (evs : list Event) : list Byte.byte :=
  concat (writtenChunks evs).

Definition progressValues (evs : list Event) : list Q :=
  omap progressValue evs.

Definition hostThrew (e : Event) : bool :=
  match e with
  | EvHost _ false => true
  | _ => false
  end.

Definition allHostOk (evs : list Event) : bool :=
  forallb (fun e => negb (hostThrew e)) evs.

(** A successful write or a progress report. *)
Definition isStep (e : Event) : bool :=
  match e with
  | EvHost (CWrite _ _) true => true
  | EvProgress _ => true
  | _ => false
  end.

(** The notifications of a run. *)
Definition toastOf (e : Event) : option Toast :=
  match e with
  | EvToast t => Some t
  | _ => None
  end.

Definition toasts (evs : list Event) : list Toast := omap toastOf evs.

(** The host calls that change the directory tree: creating a child,
    opening a writable stream, writing, closing, removing an entry. *)
Definition isMutation (e : Event) : bool :=
  match e with
  | EvHost (CGetDirectoryHandle _ _) _ => true
  | EvHost (CGetFileHandle _ _) _ => true
  | EvHost (CRemoveEntry _ _ _) _ => true
  | EvHost (CCreateWritable _) _ => true
  | EvHost (CWrite _ _) _ => true
  | EvHost (CClose _) _ => true
  | _ => false
  end.

(** The identity comparisons of a run, in order. *)
Definition comparedWith (e : Event) : option Handle :=
  match e with
  | EvHost (CIsSameEntry _ h2) _ => Some h2
  | _ => None
  end.

Definition comparisons (evs : list Event) : list Handle :=
  omap comparedWith evs.

(** Where [offset += chunk.size] lands. *)
Definition nextOffset (file : File) (offset : nat) : nat :=
  offset + length (slice file offset (offset + chunkSize)).

(** The shape of the events of the write loop started at [offset]: rounds of
    one successful write followed by one progress report, ended by the loop
    guard ([true]), by a write that throws or by a callback that throws
    ([false]). *)
Inductive LoopTrace (wr : Writable) (file : File)
  : nat -> list Event -> bool -> Prop :=
| LoopDone offset :
    fileSize file <= offset ->
    LoopTrace wr file offset [] true
| LoopWriteThrows offset :
    offset < fileSize file ->
    LoopTrace wr file offset
      [EvHost (CWrite wr (slice file offset (offset + chunkSize))) false] false
| LoopCallbackThrows offset :
    offset < fileSize file ->
    LoopTrace wr file offset
      [EvHost (CWrite wr (slice file offset (offset + chunkSize))) true;
       EvProgress (ratio (nextOffset file offset) (fileSize file))] false
| LoopRound offset evs b :
    offset < fileSize file ->
    LoopTrace wr file (nextOffset file offset) evs b ->
    LoopTrace wr file offset
      (EvHost (CWrite wr (slice file offset (offset + chunkSize))) true
       :: EvProgress (ratio (nextOffset file offset) (fileSize file))
       :: evs) b.

(** The shape of the events of [writeFile] and the boolean it resolves to. *)
Inductive WriteTrace (handle : Handle) (file : File)
  : list Event -> bool -> Prop :=
| WriteOpenThrows e :
    WriteTrace handle file
      [EvHost (CCreateWritable handle) false; EvConsole writeFailedLabel e]
      false
| WriteLoopThrows wr evs e :
    LoopTrace wr file 0 evs false ->
    WriteTrace handle file
      (EvHost (CCreateWritable handle) true
       :: evs ++ [EvConsole writeFailedLabel e])
      false
| WriteCloseThrows wr evs e :
    LoopTrace wr file 0 evs true ->
    WriteTrace handle file
      (EvHost (CCreateWritable handle) true
       :: evs ++ [EvHost (CClose wr) false; EvConsole writeFailedLabel e])
      false
| WriteDone wr evs :
    LoopTrace wr file 0 evs true ->
    WriteTrace handle file
      (EvHost (CCreateWritable handle) true :: evs ++ [EvHost (CClose wr) true])
      true.

(** The stream was opened, the whole source was written and the stream was
    closed, each without a throw. *)
Definition completed (handle : Handle) (file : File) (evs : list Event) : Prop :=
  In (EvHost (CCreateWritable handle) true) evs /\
  bytesWritten evs = fileBytes file /\
  exists wr, In (EvHost (CClose wr) true) evs.

(** The notification of a stale authorisation. *)
Definition toastStale : Toast :=
  mkToast "目录权限已失效" "目录权限已失效，已从列表中移除" ColorWarning.

(** The three mutation operations of the session controller. *)
Inductive Mutation :=
| Upload (files : list File)
| DeleteEntry (item : EntryItem)
| CreateFolder.

Definition runMutation {H} (ops : HostOps H) (m : Mutation) : M H unit :=
  match m with
  | Upload files => handleFileUpload ops files
  | DeleteEntry item => deleteItem ops item
  | CreateFolder => createNewFolder ops
  end.

(** The "no target directory" notification of each operation. *)
Definition toastNoTarget (m : Mutation) : Toast :=
  match m with
  | Upload _ => mkToast "上传失败" "请先选择一个目录" ColorError
  | DeleteEntry _ => mkToast "删除失败" "无法确定当前目录" ColorError
  | CreateFolder => mkToast "创建失败" "请先选择一个目录" ColorError
  end.

(** The "insufficient permission" notification of each operation. *)
Definition toastDenied (m : Mutation) : Toast :=
  toastNoPermission
    match m with
    | Upload _ => "当前目录没有写入权限，请重新选择目录"
    | DeleteEntry _ => "当前目录没有写入权限，无法删除文件"
    | CreateFolder => "当前目录没有写入权限，无法创建文件夹"
    end.

(** The shape of the events of one round of the upload loop, for a file
    [file] uploaded into [dir] while [snapshot] is displayed: the file is
    skipped; or the creation of its handle throws; or the handle is created
    and [writeFile] runs, after which the success notification is emitted
    whatever [writeFile] resolved to. *)
Inductive UploadTrace (snapshot : list EntryItem) (dir : Handle) (file : File)
  : list Event -> Prop :=
| UploadSkipped existingFile :
    findExistingFile snapshot (fileName file) = Some existingFile ->
    UploadTrace snapshot dir file [EvToast (toastSkipped (fileName file))]
| UploadCreateThrows e :
    findExistingFile snapshot (fileName file) = None ->
    UploadTrace snapshot dir file
      [EvHost (CGetFileHandle dir (fileName file)) false;
       EvToast (toastUploadFailed (fileName file) e)]
| UploadWritten fileHandle evs b :
    findExistingFile snapshot (fileName file) = None ->
    WriteTrace fileHandle file evs b ->
    (allHostOk evs = true -> b = true) ->
    UploadTrace snapshot dir file
      (EvHost (CGetFileHandle dir (fileName file)) true
       :: evs ++ [EvToast (toastUploaded (fileName file))]).

(** The snapshot displayed when the turn of each file of a batch comes. *)
Fixpoint turnSnapshots {H} (ops : HostOps H) (others : list (World H -> World H))
    (dir : Handle) (files : list File) (w : World H) : list (list EntryItem) :=
  match files with
  | [] => []
  | file :: rest =>
      let w0 := hd untouched others w in
      fileList (session w0)
      :: turnSnapshots ops (tl others) dir rest (worldOf (uploadFile ops dir file w0))
  end.

(** A file matches the snapshot: some entry of kind file has its name. *)
Definition matchesSnapshot (snapshot : list EntryItem) (file : File) : Prop :=
  exists item, In item snapshot /\ name item = fileName file /\ kind item = KFile.

(** What ECMAScript asks of a comparator for [sort] to be defined: its
    sign is antisymmetric and "not after" is transitive. *)
Definition consistentComparator {A} (compare : A -> A -> Z) : Prop :=
  (forall a b, Z.sgn (compare a b) = (- Z.sgn (compare b a))%Z) /\
  (forall a b c, (compare a b <= 0)%Z -> (compare b c <= 0)%Z ->
                 (compare a c <= 0)%Z).

(** [a] is not after [b] for the comparator. *)
Definition notAfter {A} (compare : A -> A -> Z) (a b : A) : Prop :=
  (compare a b <= 0)%Z.

(** Order by name in the locale of the host. *)
Definition byName {H} (ops : HostOps H) (a b : EntryItem) : Prop :=
  (localeCompare ops (name a) (name b) <= 0)%Z.

(** The comparator on the two fields it reads. *)
Definition compareKeys (lc : string -> string -> Z) (a b : string * Kind) : Z :=
  if decide (snd a = snd b) then lc (fst a) (fst b)
  else if decide (snd a = KDirectory) then (-1)%Z else 1%Z.

Definition keys (item : EntryItem) : string * Kind := (name item, kind item).

(** The enumeration phase of [listDirectoryEntryItems]: the entry items in
    the order the host yields the children. *)
Definition enumerate {H} (ops : HostOps H) (handle : Handle)
  : M H (list EntryItem) :=
  let* entries := hostCall (CValues handle) (values ops handle) in
  collectEntryItems ops entries.

(** The stored handle of a record is unusable: it is missing from the
    Handle Store, or the Permission Gate does not validate it. *)
Definition unusable {H} (ops : HostOps H) (directoryData : StoredDirectoryInfo)
    (w : World H) : Prop :=
  idb w !! id directoryData = None \/
  exists h, idb w !! id directoryData = Some h /\
            outcomeOf (requestDirectoryPermission ops h ModeReadWrite w) = Ok false.

End Observe.
Export Observe.

(** ** A scripted host

    A concrete host for running the program on examples: the answers of the
    browser and of the user are fixed by a script, calls listed in [faults]
    throw, and the state of the host counts the calls made so far. *)

Module Scripted.

Record Script := mkScript {
  permission : Outcome PermissionState;
  answer : Outcome PermissionState;
  faults : HostCall -> option HostError;
  children : list Handle;
  contents : Handle -> File;
  picked : Handle;
  sameEntry : Handle -> Handle -> bool;
  confirmed : bool;
  folderName : option string }.

Definition guarded {A} (sc : Script) (c : HostCall) (a : A) (n : nat)
  : Outcome A * nat :=
  (match faults sc c with
   | Some e => Thrown e
   | None => Ok a
   end, S n).

(** Comparison by code units: the order of [localeCompare] on the ASCII
    names of the examples. *)
Definition codeUnitCompare (a b : string) : Z :=
  match String_as_OT.compare a b with
  | Lt => (-1)%Z
  | Eq => 0%Z
  | Gt => 1%Z
  end.

Definition scriptedOps (sc : Script) : HostOps nat :=
  mkHostOps nat
    (fun _ _ n => (permission sc, S n))
    (fun _ _ n => (answer sc, S n))
    (fun dir child n =>
       guarded sc (CGetDirectoryHandle dir child)
               (mkHandle (100 + n) child KDirectory) n)
    (fun dir child n =>
       guarded sc (CGetFileHandle dir child) (mkHandle (100 + n) child KFile) n)
    (fun dir child recursive n =>
       guarded sc (CRemoveEntry dir child recursive) tt n)
    (fun fh n => guarded sc (CCreateWritable fh) (handleId fh) n)
    (fun wr chunk n => guarded sc (CWrite wr chunk) tt n)
    (fun wr n => guarded sc (CClose wr) tt n)
    (fun fh n => guarded sc (CGetFile fh) (contents sc fh) n)
    (fun dir n => guarded sc (CValues dir) (children sc) n)
    (fun h1 h2 n => guarded sc (CIsSameEntry h1 h2) (sameEntry sc h1 h2) n)
    (fun n => guarded sc CShowDirectoryPicker (picked sc) n)
    (fun n => (("uuid-" ++ pretty n)%string, S n))
    codeUnitCompare
    (fun item n => guarded sc (CDeleteConfirmModal item) (confirmed sc) n)
    (fun existing n =>
       guarded sc (CCreateFolderModal existing) (folderName sc) n).

(** Sample data. *)
Definition docs : Handle := mkHandle 1 "Docs" KDirectory.
Definition music : Handle := mkHandle 2 "Music" KDirectory.
Definition photos : Handle := mkHandle 3 "Photos" KDirectory.

Definition emptyFile (h : Handle) : File := mkFile (handleName h) [] 0 "".

Definition noFaults (c : HostCall) : option HostError := None.

(** A well-behaved host: permission granted, no call throws. *)
Definition calm : Script :=
  mkScript (Ok Granted) (Ok Granted) noFaults [] emptyFile photos
           (fun h1 h2 => bool_decide (h1 = h2)) true (Some "Drafts").

Definition withPermission (p a : Outcome PermissionState) (sc : Script) : Script :=
  mkScript p a (faults sc) (children sc) (contents sc) (picked sc)
           (sameEntry sc) (confirmed sc) (folderName sc).

Definition withFaults (f : HostCall -> option HostError) (sc : Script) : Script :=
  mkScript (permission sc) (answer sc) f (children sc) (contents sc) (picked sc)
           (sameEntry sc) (confirmed sc) (folderName sc).

Definition withChildren (l : list Handle) (sc : Script) : Script :=
  mkScript (permission sc) (answer sc) (faults sc) l (contents sc) (picked sc)
           (sameEntry sc) (confirmed sc) (folderName sc).

Definition notAllowed : HostError :=
  mkError "NotAllowedError" "The request is not allowed".

Definition typeMismatch : HostError :=
  mkError "TypeMismatchError" "The path supplied exists, but was not an entry of requested type".

Definition quotaExceeded : HostError :=
  mkError "QuotaExceededError" "The quota has been exceeded".

(** The session after entering [Docs]: one frame on the stack. *)
Definition browsing (snapshot : list EntryItem) : Session :=
  mkSession ViewDirectory [mkInfo "uuid-0" "Docs"] [mkFrame "Docs" docs]
            snapshot false false ∅ [].

Definition startWorld (s : Session) : World nat := mkWorld 0 ∅ s.

(** The rest of the page changes the displayed snapshot. *)
Definition showing (snapshot : list EntryItem) (w : World nat) : World nat :=
  mkWorld (host w) (idb w) (setFileList snapshot (session w)).

Definition fileItem (fname : string) : EntryItem :=
  mkEntryItem fname KFile (mkHandle 50 fname KFile) (Some 0) (Some 0%Z) (Some "").

Definition directoryItem (dname : string) : EntryItem :=
  mkEntryItem dname KDirectory (mkHandle 51 dname KDirectory) None None None.

Definition report : File :=
  mkFile "report.txt" [Byte.x68; Byte.x69; Byte.x0a] 0 "text/plain".

Definition notes : File :=
  mkFile "notes.txt" [Byte.x6f; Byte.x6b] 0 "text/plain".

Definition blank : File := mkFile "blank.txt" [] 0 "text/plain".

(** A callback that leaves the page alone. *)
Definition idle : Callback := fun _ s => (Ok tt, s).

(** Home, with [Docs] registered. *)
Definition atHome : Session :=
  mkSession ViewHome [mkInfo "uuid-0" "Docs"] [] [] false false ∅ [].

(** Home, with [Docs] and [Music] registered and both handles stored. *)
Definition twoRoots : World nat :=
  mkWorld 0 (<["uuid-0" := docs]> (<["uuid-1" := music]> ∅))
    (mkSession ViewHome [mkInfo "uuid-0" "Docs"; mkInfo "uuid-1" "Music"]
               [] [] false false ∅ []).

(** The user picks [Music] again, and the host refuses to compare anything
    with [Docs] (its permission has lapsed). *)
Definition docsNotComparable : Script :=
  mkScript (Ok Granted) (Ok Granted)
    (fun c => match c with
              | CIsSameEntry _ h2 =>
                  if bool_decide (h2 = docs) then Some notAllowed else None
              | _ => None
              end)
    [] emptyFile music (fun h1 h2 => bool_decide (h1 = h2)) true None.

(** A directory named like the file to upload is in the way: the host
    refuses to hand out a file handle for that name. *)
Definition nameTaken : Script :=
  withFaults (fun c => match c with
                       | CGetFileHandle _ _ => Some typeMismatch
                       | _ => None
                       end) calm.

(** The disk is full: every [write] on a stream throws. *)
Definition diskFull : Script :=
  withFaults (fun c => match c with
                       | CWrite _ _ => Some quotaExceeded
                       | _ => None
                       end) calm.

(** The user has revoked the permission. *)
Definition revoked : Script := withPermission (Ok Denied) (Ok Denied) calm.

(** The directory of the sorting example, in the order the host yields
    its children. *)
Definition sampleChildren : list Handle :=
  [mkHandle 11 "b.txt" KFile; mkHandle 12 "A.txt" KFile;
   mkHandle 13 "zdir" KDirectory; mkHandle 14 "adir" KDirectory].

Definition sampleDirectory : Script := withChildren sampleChildren calm.

Definition reportHandle : Handle := mkHandle 7 "report.txt" KFile.
Definition blankHandle : Handle := mkHandle 8 "blank.txt" KFile.

End Scripted.
Export Scripted.

(** ** Runs seen from the host

    Several helpers talk to the host and touch neither the Handle Store nor
    the page: what they return, emit and do to the host is a function of
    the host alone. *)

Module HostView.

(** [const currentPath = computed(() => ...map((dir) => dir.name).join('/'))] *)
Definition currentPath (s : Session) : string :=
  String.concat "/" (List.map frameName (currentPathDirectories s)).

(** A computation run on a host, with an empty store and a fresh page. *)
Definition onHost {H A} (m : M H A) (hst : H)
  : Outcome A * World H * list Event :=
  m (mkWorld hst ∅ initialSession).

(** [m] reads and changes the host only. *)
Definition hostOnly {H A} (m : M H A) : Prop :=
  forall w : World H,
    m w = (outcomeOf (onHost m (host w)),
           mkWorld (host (worldOf (onHost m (host w)))) (idb w) (session w),
           eventsOf (onHost m (host w))).

(** The gate with mode readwrite, and the listing, run on a host. *)
Definition gateOn {H} (ops : HostOps H) (handle : Handle) (hst : H) :=
  onHost (requestDirectoryPermission ops handle ModeReadWrite) hst.

Definition listOn {H} (ops : HostOps H) (handle : Handle) (hst : H) :=
  onHost (listDirectoryEntryItems ops handle) hst.

(** The handles stored for the records of a registry, in order. *)
Definition storedHandles (store : gmap string Handle)
    (infos : list StoredDirectoryInfo) : list Handle :=
  omap (fun info => store !! id info) infos.

(** The entry-removing calls of a trace. *)
Definition removalOf (e : Event) : option (Handle * string * bool) :=
  match e with
  | EvHost (CRemoveEntry dir child recursive) _ => Some (dir, child, recursive)
  | _ => None
  end.

Definition removals (evs : list Event) : list (Handle * string * bool) :=
  omap removalOf evs.

(** The directory-creating calls of a trace. *)
Definition creationOf (e : Event) : option (Handle * string) :=
  match e with
  | EvHost (CGetDirectoryHandle dir child) _ => Some (dir, child)
  | _ => None
  end.

Definition creations (evs : list Event) : list (Handle * string) :=
  omap creationOf evs.


(** The notifications of [enterDirectory], [addNewDirectory], [deleteItem]
    and [createNewFolder]. *)
Definition toastEnterFailed : Toast :=
  mkToast "进入目录失败" "无法访问该目录，请重新授权" ColorError.

Definition toastDuplicate (handle : Handle) : Toast :=
  mkToast "目录已存在" ("目录 " ++ quoted (handleName handle) ++ " 已经在列表中")
          ColorWarning.

Definition toastAdded (handle : Handle) : Toast :=
  mkToast "目录添加成功" ("已添加目录: " ++ handleName handle) ColorSuccess.

Definition toastAddFailed (e : HostError) : Toast :=
  mkToast "添加目录失败" (errMessage e) ColorError.

Definition toastDeleted (item : EntryItem) : Toast :=
  mkToast "删除成功"
          (kindLabel (kind item) ++ " " ++ quoted (name item) ++ " 已删除")
          ColorSuccess.

Definition toastDeleteFailed (item : EntryItem) (e : HostError) : Toast :=
  mkToast "删除失败" ("删除 " ++ quoted (name item) ++ " 失败: " ++ errMessage e)
          ColorError.

Definition toastFolderCreated (folder : string) : Toast :=
  mkToast "创建成功" ("文件夹 " ++ quoted folder ++ " 创建成功") ColorSuccess.

Definition toastFolderFailed (e : HostError) : Toast :=
  mkToast "创建失败" ("创建文件夹失败: " ++ errMessage e) ColorError.

(** The names handed to the folder dialog: the directories of the snapshot. *)
Definition existingFoldersOf (snapshot : list EntryItem) : list string :=
  List.map name
    (List.filter (fun item => bool_decide (kind item = KDirectory)) snapshot).

(** The reads of a listing. *)
Definition isRead (e : Event) : bool :=
  match e with
  | EvHost (CValues _) _ => true
  | EvHost (CGetFile _) _ => true
  | _ => false
  end.

(** The duplicate search run on a host and a store. *)
Definition searchOn {H} (ops : HostOps H) (handle : Handle)
    (infos : list StoredDirectoryInfo) (store : gmap string Handle) (hst : H) :=
  findSameEntry ops handle infos (mkWorld hst store initialSession).

(** Sample worlds and scripts for the examples. *)
Definition docsRecord : StoredDirectoryInfo := mkInfo "uuid-0" "Docs".

Definition homeStored : World nat :=
  mkWorld 0 (<["uuid-0" := docs]> ∅) atHome.

Definition draftsItem : EntryItem := directoryItem "Drafts".

Definition unreadable : Script :=
  withFaults (fun c => match c with
                       | CValues _ => Some notAllowed
                       | _ => None
                       end) calm.

Definition pickerDismissed : Script :=
  withFaults (fun c => match c with
                       | CShowDirectoryPicker =>
                           Some (mkError "AbortError" "The user aborted a request")
                       | _ => None
                       end) calm.

Definition pickingDocs : Script :=
  mkScript (Ok Granted) (Ok Granted) noFaults [] emptyFile docs
           (fun h1 h2 => bool_decide (h1 = h2)) true None.

Definition declining : Script :=
  mkScript (Ok Granted) (Ok Granted) noFaults [] emptyFile photos
           (fun h1 h2 => bool_decide (h1 = h2)) false None.

(** An entry item describes its handle: the name and the kind are those of
    the handle, and the size, the date and the type are present exactly for
    a file. *)
Definition describes (item : EntryItem) : Prop :=
  name item = handleName (handle item) /\
  kind item = handleKind (handle item) /\
  if decide (kind item = KFile)
  then is_Some (size item) /\ is_Some (lastModified item) /\ is_Some (type item)
  else size item = None /\ lastModified item = None /\ type item = None.

(** The reads of a listing that returns: the enumeration, then one file
    opened for each child that is a file, in the order of enumeration. *)
Definition readsOf (dir : Handle) (entries : list Handle) : list Event :=
  EvHost (CValues dir) true
  :: List.map (fun entry => EvHost (CGetFile entry) true)
       (List.filter (fun entry => bool_decide (handleKind entry = KFile)) entries).



End HostView.
Export HostView.

(** ** Laws of the monad *)

Module Laws.

(** The events of a sequence are those of its first part followed by those
    of the rest, when the first part returns. *)
Lemma bind_events {H A B} (m : M H A) (k : A -> M H B) (w : World H) :
  eventsOf (bind m k w) =
  eventsOf (m w) ++
  match outcomeOf (m w) with
  | Ok a => eventsOf (k a (worldOf (m w)))
  | Thrown _ => []
  end.
Proof.
  unfold bind, eventsOf, outcomeOf, worldOf.
  destruct (m w) as [[[a|e] w1] ev1]; cbn.
  - destruct (k a w1) as [[r w2] ev2]. reflexivity.
  - now rewrite app_nil_r.
Qed.

End Laws.
Export Laws.

(** ** The Permission Gate *)

Module Gate.

Section WithHost.
Context {H : Type} (ops : HostOps H).

(** The gate never throws: every path ends in [return true] or
    [return false]. *)
Lemma requestDirectoryPermission_total handle mode (w : World H) :
  exists b, outcomeOf (requestDirectoryPermission ops handle mode w) = Ok b.
Proof.
  unfold requestDirectoryPermission, tryCatch, bind, hostCall, outcomeOf.
  destruct (queryPermission ops handle mode (host w)) as [[p|e] h1]; cbn.
  - destruct (decide (p = Granted)); cbn; [eauto|].
    destruct (decide (p = Prompt)); cbn; [|eauto].
    destruct (requestPermission ops handle mode h1) as [[p'|e'] h2]; cbn; eauto.
  - eauto.
Qed.

(** The gate talks to the host only about permissions and leaves the page
    state and the handle store alone. *)
Lemma requestDirectoryPermission_frame handle mode (w : World H) :
  let r := requestDirectoryPermission ops handle mode w in
  session (worldOf r) = session w /\ idb (worldOf r) = idb w /\
  Forall (fun e => isQuery e || isRequest e
                   || match e with EvConsole _ _ => true | _ => false end = true)
         (eventsOf r).
Proof.
  unfold requestDirectoryPermission, tryCatch, bind, hostCall, worldOf, eventsOf.
  destruct (queryPermission ops handle mode (host w)) as [[p|e] h1]; cbn.
  - destruct (decide (p = Granted)); cbn; [repeat split; repeat constructor|].
    destruct (decide (p = Prompt)); cbn; [|repeat split; repeat constructor].
    destruct (requestPermission ops handle mode h1) as [[p'|e'] h2]; cbn;
      repeat split; repeat constructor.
  - repeat split; repeat constructor.
Qed.

(** C1.  For every handle and mode the Permission Gate queries the host
    once and then: on [granted] it returns [true] and issues no request; on
    [prompt] it issues exactly one request and returns whether that request
    was granted; on [denied] it returns [false] and issues no request; and
    when the query or the request throws it returns [false]. *)
Theorem requestDirectoryPermission_spec handle mode (w : World H) :
  let r := requestDirectoryPermission ops handle mode w in
  queryCount (eventsOf r) = 1 /\
  match queryPermission ops handle mode (host w) with
  | (Ok Granted, _) =>
      outcomeOf r = Ok true /\ requestCount (eventsOf r) = 0
  | (Ok Prompt, h1) =>
      requestCount (eventsOf r) = 1 /\
      match requestPermission ops handle mode h1 with
      | (Ok answer, _) => outcomeOf r = Ok (bool_decide (answer = Granted))
      | (Thrown _, _) => outcomeOf r = Ok false
      end
  | (Ok Denied, _) =>
      outcomeOf r = Ok false /\ requestCount (eventsOf r) = 0
  | (Thrown _, _) =>
      outcomeOf r = Ok false /\ requestCount (eventsOf r) = 0
  end.
Proof.
  unfold requestDirectoryPermission, tryCatch, bind, hostCall, outcomeOf, eventsOf.
  destruct (queryPermission ops handle mode (host w)) as [[p|e] h1]; cbn.
  - destruct p; repeat (destruct (decide _); try congruence); cbn; auto.
    all: destruct (requestPermission ops handle mode h1) as [[p'|e'] h2]; cbn; auto.
  - auto.
Qed.

End WithHost.

End Gate.


(** ** Chunked writing *)

Module Chunks.

Lemma writtenChunks_app evs1 evs2 :
  writtenChunks (evs1 ++ evs2) = writtenChunks evs1 ++ writtenChunks evs2.
Proof. apply omap_app. Qed.

Lemma progressValues_app evs1 evs2 :
  progressValues (evs1 ++ evs2) = progressValues evs1 ++ progressValues evs2.
Proof. apply omap_app. Qed.

Lemma bytesWritten_app evs1 evs2 :
  bytesWritten (evs1 ++ evs2) = bytesWritten evs1 ++ bytesWritten evs2.
Proof. unfold bytesWritten. rewrite writtenChunks_app. apply concat_app. Qed.

Lemma chunkSize_pos : 0 < chunkSize.
Proof. unfold chunkSize. lia. Qed.

#[global] Opaque chunkSize.

Lemma slice_length file start stop :
  length (slice file start stop) = Nat.min (stop - start) (fileSize file - start).
Proof. unfold slice, fileSize. rewrite length_take, length_drop. reflexivity. Qed.


Lemma nextOffset_min file offset :
  nextOffset file offset = Nat.min (offset + chunkSize) (Nat.max offset (fileSize file)).
Proof. unfold nextOffset. rewrite slice_length. lia. Qed.


(** *** Exact quotients *)

Lemma ratio_le a b n : a <= b -> Qle (ratio a n) (ratio b n).
Proof. intros Hab. unfold Qle, ratio; cbn. nia. Qed.

Lemma ratio_nonneg a n : Qle 0 (ratio a n).
Proof. unfold Qle, ratio; cbn. lia. Qed.

Lemma ratio_le_1 a n : a <= n -> 0 < n -> Qle (ratio a n) 1.
Proof. intros Han Hn. unfold Qle, ratio; cbn. lia. Qed.

Lemma ratio_full n : 0 < n -> Qeq (ratio n n) 1.
Proof. intros Hn. unfold Qeq, ratio; cbn. lia. Qed.

(** *** What a loop trace says *)

Section LoopFacts.
Context (wr : Writable) (file : File).

Lemma slice_ext a b a' b' :
  a = a' -> b = b' -> slice file a b = slice file a' b'.
Proof. intros -> ->. reflexivity. Qed.

Lemma ratio_ext a a' n : a = a' -> ratio a n = ratio a' n.
Proof. intros ->. reflexivity. Qed.

Lemma LoopTrace_end offset evs b :
  fileSize file <= offset -> LoopTrace wr file offset evs b ->
  evs = [] /\ b = true.
Proof. intros Hge Ht. inversion Ht; subst; try lia. auto. Qed.

Lemma nextOffset_full offset k :
  nextOffset file offset + k < fileSize file ->
  nextOffset file offset = offset + chunkSize.
Proof. rewrite nextOffset_min. lia. Qed.

(** The [i]-th chunk written is the [i]-th window of [chunkSize] bytes. *)
Lemma LoopTrace_chunks offset evs b :
  LoopTrace wr file offset evs b ->
  forall i c, writtenChunks evs !! i = Some c ->
    c = slice file (offset + i * chunkSize) (offset + (i + 1) * chunkSize) /\
    offset + i * chunkSize < fileSize file.
Proof.
  induction 1 as [offset Hge|offset Hlt|offset Hlt|offset evs b Hlt Ht IH];
    intros i c Hi; cbn in Hi.
  - discriminate.
  - discriminate.
  - destruct i as [|i]; [|discriminate]. injection Hi as <-.
    split; [apply slice_ext; lia|lia].
  - destruct i as [|i]; cbn in Hi.
    + injection Hi as <-. split; [apply slice_ext; lia|lia].
    + destruct (IH i c Hi) as [-> Hin].
      rewrite (nextOffset_full offset (i * chunkSize)) in * by lia.
      split; [apply slice_ext; lia|lia].
Qed.

(** The [i]-th progress value is the offset after [i + 1] chunks over the
    size of the file. *)
Lemma LoopTrace_progress offset evs b :
  LoopTrace wr file offset evs b ->
  forall i q, progressValues evs !! i = Some q ->
    q = ratio (Nat.min (offset + (i + 1) * chunkSize) (fileSize file))
              (fileSize file) /\
    offset + i * chunkSize < fileSize file.
Proof.
  induction 1 as [offset Hge|offset Hlt|offset Hlt|offset evs b Hlt Ht IH];
    intros i q Hi; cbn in Hi.
  - discriminate.
  - discriminate.
  - destruct i as [|i]; [|discriminate]. injection Hi as <-.
    split; [|lia]. apply ratio_ext. rewrite nextOffset_min. lia.
  - destruct i as [|i]; cbn in Hi.
    + injection Hi as <-. split; [|lia]. apply ratio_ext.
      rewrite nextOffset_min. lia.
    + destruct (IH i q Hi) as [-> Hin].
      rewrite (nextOffset_full offset (i * chunkSize)) in * by lia.
      split; [apply ratio_ext; lia|lia].
Qed.

(** One progress report per chunk written, each right after its chunk. *)
Lemma LoopTrace_steps offset evs b :
  LoopTrace wr file offset evs b ->
  length (progressValues evs) = length (writtenChunks evs) /\
  List.filter isStep evs =
    concat (zip_with (fun c q => [EvHost (CWrite wr c) true; EvProgress q])
                     (writtenChunks evs) (progressValues evs)).
Proof.
  induction 1 as [offset Hge|offset Hlt|offset Hlt|offset evs b Hlt Ht IH]; cbn.
  - auto.
  - auto.
  - auto.
  - destruct IH as [IHl IHf]. split; [now f_equal|]. now do 2 f_equal.
Qed.

(** The loop only writes and reports. *)
Lemma LoopTrace_events offset evs b :
  LoopTrace wr file offset evs b ->
  Forall (fun e => match e with
                   | EvHost (CWrite _ _) _ | EvProgress _ => True
                   | _ => False
                   end) evs.
Proof. induction 1; repeat constructor; assumption. Qed.

Lemma take_drop_length {A} (n : nat) (l : list A) :
  take n l ++ drop (length (take n l)) l = l.
Proof.
  rewrite length_take. destruct (Nat.le_gt_cases n (length l)).
  - rewrite Nat.min_l by lia. apply take_drop.
  - rewrite Nat.min_r by lia. rewrite take_ge by lia.
    rewrite drop_all. apply app_nil_r.
Qed.


(** A loop that ran to its guard wrote the rest of the file, met no host
    error, and last reported the whole size. *)
Lemma LoopTrace_complete offset evs :
  LoopTrace wr file offset evs true ->
  bytesWritten evs = drop offset (fileBytes file) /\
  allHostOk evs = true /\
  (offset < fileSize file ->
   last (progressValues evs) = Some (ratio (fileSize file) (fileSize file))).
Proof.
  remember true as b eqn:Hb. induction 1
    as [offset Hge|offset Hlt|offset Hlt|offset evs b Hlt Ht IH];
    try discriminate.
  - cbn. rewrite drop_ge by (unfold fileSize in Hge; lia).
    repeat split. lia.
  - destruct (IH Hb) as (IHb & IHok & IHlast). subst b.
    change (bytesWritten (?e1 :: ?e2 :: evs))
      with (slice file offset (offset + chunkSize) ++ bytesWritten evs).
    rewrite IHb. unfold nextOffset, slice at 1 2.
    replace (offset + chunkSize - offset) with chunkSize by lia.
    rewrite <- drop_drop, take_drop_length.
    repeat split; [exact IHok|]. intros _.
    change (progressValues (?e1 :: EvProgress ?q :: evs))
      with (q :: progressValues evs).
    rewrite last_cons.
    destruct (Nat.lt_ge_cases (nextOffset file offset) (fileSize file)) as [Hn|Hn].
    + now rewrite IHlast.
    + destruct (LoopTrace_end _ _ _ Hn Ht) as [-> _]. cbn.
      f_equal. apply ratio_ext. rewrite nextOffset_min in Hn.
      rewrite slice_length. lia.
Qed.


End LoopFacts.

Section WithHost.
Context {H : Type} (ops : HostOps H).

Lemma writeLoop_unfold fuel wr file cb offset :
  writeLoop ops fuel wr file cb offset =
  if offset <? fileSize file then
    match fuel with
    | O => ret tt
    | S fuel' =>
        hostCall (CWrite wr (slice file offset (offset + chunkSize)))
                 (write ops wr (slice file offset (offset + chunkSize))) ;;;
        invoke cb (ratio (nextOffset file offset) (fileSize file)) ;;;
        writeLoop ops fuel' wr file cb (nextOffset file offset)
    end
  else ret tt.
Proof. destruct fuel; reflexivity. Qed.

(** The loop with enough fuel follows [LoopTrace]; in particular it never
    stops for lack of fuel, and it leaves everything but the host and what
    the callback changes alone. *)
Lemma writeLoop_trace wr file cb fuel : forall offset (w : World H),
  fileSize file - offset <= fuel ->
  let r := writeLoop ops fuel wr file cb offset w in
  LoopTrace wr file offset (eventsOf r) (isOk (outcomeOf r)) /\
  idb (worldOf r) = idb w.
Proof.
  induction fuel as [|fuel IH]; intros offset w Hfuel;
    cbv zeta; rewrite writeLoop_unfold.
  - destruct (Nat.ltb_spec offset (fileSize file)); [lia|].
    cbn. split; [constructor; lia|reflexivity].
  - destruct (Nat.ltb_spec offset (fileSize file)) as [Hlt|Hge].
    2:{ cbn. split; [constructor; lia|reflexivity]. }
    unfold bind, hostCall, invoke.
    destruct (write ops wr _ (host w)) as [[[]|e] h1]; run_simpl.
    2:{ split; [constructor; lia|reflexivity]. }
    destruct (cb _ (session w)) as [[[]|e] s1]; run_simpl.
    2:{ split; [apply LoopCallbackThrows; lia|reflexivity]. }
    match goal with
    | |- context [writeLoop ops fuel wr file cb ?o ?w'] =>
        specialize (IH o w')
    end.
    assert (Hnext : offset < nextOffset file offset).
    { rewrite nextOffset_min. pose proof chunkSize_pos. lia. }
    destruct IH as [IHt IHi]; [lia|].
    destruct (writeLoop ops fuel wr file cb (nextOffset file offset) _)
      as [[r w2] ev2]; cbn in *.
    split; [apply LoopRound; [lia|exact IHt]|exact IHi].
Qed.

(** What the callback keeps, the loop keeps. *)
Lemma writeLoop_session wr file (cb : Callback) (P : Session -> Prop) fuel :
  (forall q s, P s -> P (snd (cb q s))) ->
  forall offset (w : World H),
  P (session w) ->
  P (session (worldOf (writeLoop ops fuel wr file cb offset w))).
Proof.
  intros Hcb. induction fuel as [|fuel IH]; intros offset w Hw;
    rewrite writeLoop_unfold.
  - destruct (offset <? fileSize file); exact Hw.
  - destruct (offset <? fileSize file); [|exact Hw].
    unfold bind, hostCall, invoke.
    destruct (write ops wr _ (host w)) as [[[]|e] h1]; run_simpl; [|exact Hw].
    pose proof (Hcb (ratio (nextOffset file offset) (fileSize file))
                    (session w) Hw) as Hs.
    destruct (cb _ (session w)) as [[[]|e] s1]; run_simpl; [|exact Hs].
    match goal with
    | |- context [writeLoop ops fuel wr file cb ?o ?w'] =>
        specialize (IH o w' Hs);
        destruct (writeLoop ops fuel wr file cb o w') as [[r w2] ev2]
    end.
    exact IH.
Qed.

Lemma writeFile_trace handle file cb (w : World H) :
  let r := writeFile ops handle file cb w in
  exists b, outcomeOf r = Ok b /\ WriteTrace handle file (eventsOf r) b /\
            idb (worldOf r) = idb w.
Proof.
  cbv zeta. unfold writeFile, tryCatch, bind, hostCall.
  destruct (createWritable ops handle (host w)) as [[wr|e] h1]; run_simpl.
  2:{ exists false. cbn. repeat split. constructor. }
  match goal with
  | |- context [writeLoop ops ?f wr file cb 0 ?w'] =>
      destruct (writeLoop_trace wr file cb f 0 w') as [Ht Hi]; [lia|];
      destruct (writeLoop ops f wr file cb 0 w') as [[[[]|e] w2] ev2]
  end; run_simpl.
  2:{ exists false. cbn. repeat split; [|exact Hi].
      apply WriteLoopThrows with (wr := wr). exact Ht. }
  destruct (close ops wr (host w2)) as [[[]|e] h3]; run_simpl.
  - exists true. cbn. repeat split; [|exact Hi].
    apply WriteDone. exact Ht.
  - exists false. cbn. rewrite <- app_assoc. repeat split; [|exact Hi].
    apply WriteCloseThrows. exact Ht.
Qed.

Lemma writeFile_session handle file (cb : Callback) (P : Session -> Prop)
    (w : World H) :
  (forall q s, P s -> P (snd (cb q s))) ->
  P (session w) ->
  P (session (worldOf (writeFile ops handle file cb w))).
Proof.
  intros Hcb Hw. unfold writeFile, tryCatch, bind, hostCall.
  destruct (createWritable ops handle (host w)) as [[wr|e] h1]; run_simpl.
  2:{ exact Hw. }
  match goal with
  | |- context [writeLoop ops ?f wr file cb 0 ?w'] =>
      pose proof (writeLoop_session wr file cb P f Hcb 0 w' Hw) as Hs;
      destruct (writeLoop ops f wr file cb 0 w') as [[[[]|e] w2] ev2]
  end; run_simpl.
  2:{ exact Hs. }
  destruct (close ops wr (host w2)) as [[[]|e] h3]; run_simpl; exact Hs.
Qed.

(** With a callback that does not throw, only the host can stop a write. *)
Lemma writeLoop_quiet wr file (cb : Callback) fuel :
  (forall q s, fst (cb q s) = Ok tt) ->
  forall offset (w : World H),
  let r := writeLoop ops fuel wr file cb offset w in
  isOk (outcomeOf r) = false -> allHostOk (eventsOf r) = false.
Proof.
  intros Hcb. induction fuel as [|fuel IH]; intros offset w;
    cbv zeta; rewrite writeLoop_unfold.
  - destruct (offset <? fileSize file); discriminate.
  - destruct (offset <? fileSize file); [|discriminate].
    unfold bind, hostCall, invoke.
    destruct (write ops wr _ (host w)) as [[[]|e] h1]; run_simpl;
      [|reflexivity].
    pose proof (Hcb (ratio (nextOffset file offset) (fileSize file))
                    (session w)) as Hq.
    destruct (cb _ (session w)) as [[[]|e] s1]; run_simpl; [|discriminate].
    match goal with
    | |- context [writeLoop ops fuel wr file cb ?o ?w'] =>
        specialize (IH o w');
        destruct (writeLoop ops fuel wr file cb o w') as [[r w2] ev2]
    end.
    run_simpl. exact IH.
Qed.

Lemma writeFile_quiet handle file (cb : Callback) (w : World H) :
  (forall q s, fst (cb q s) = Ok tt) ->
  let r := writeFile ops handle file cb w in
  allHostOk (eventsOf r) = true -> outcomeOf r = Ok true.
Proof.
  intros Hcb. cbv zeta. unfold writeFile, tryCatch, bind, hostCall.
  destruct (createWritable ops handle (host w)) as [[wr|e] h1]; run_simpl.
  2:{ discriminate. }
  match goal with
  | |- context [writeLoop ops ?f wr file cb 0 ?w'] =>
      pose proof (writeLoop_quiet wr file cb f Hcb 0 w') as Hq;
      destruct (writeLoop ops f wr file cb 0 w') as [[[[]|e] w2] ev2]
  end; run_simpl.
  2:{ cbn. unfold allHostOk in *. rewrite forallb_app, Hq by reflexivity.
      discriminate. }
  destruct (close ops wr (host w2)) as [[[]|e] h3]; run_simpl.
  - reflexivity.
  - cbn. unfold allHostOk. rewrite !forallb_app. cbn.
    rewrite andb_false_r. discriminate.
Qed.

End WithHost.

(** *** What a write trace says *)

Section WriteFacts.
Context (handle : Handle) (file : File).

Lemma WriteTrace_loop evs b :
  WriteTrace handle file evs b ->
  (b = false /\ writtenChunks evs = [] /\ progressValues evs = [] /\
   List.filter isStep evs = []) \/
  exists wr loopEvs b',
    LoopTrace wr file 0 loopEvs b' /\
    writtenChunks evs = writtenChunks loopEvs /\
    progressValues evs = progressValues loopEvs /\
    List.filter isStep evs = List.filter isStep loopEvs /\
    (b = true -> b' = true).
Proof.
  destruct 1 as [e|wr evs e Ht|wr evs e Ht|wr evs Ht]; [left|right..].
  - repeat split.
  - exists wr, evs, false. unfold writtenChunks, progressValues.
    cbn. rewrite !omap_app, List.filter_app. cbn. rewrite !app_nil_r.
    repeat split; auto.
  - exists wr, evs, true. unfold writtenChunks, progressValues.
    cbn. rewrite !omap_app, List.filter_app. cbn. rewrite !app_nil_r.
    repeat split; auto.
  - exists wr, evs, true. unfold writtenChunks, progressValues.
    cbn. rewrite !omap_app, List.filter_app. cbn. rewrite !app_nil_r.
    repeat split; auto.
Qed.

End WriteFacts.

End Chunks.
Export Chunks.

(** ** [writeFile] *)

Module Write.

Lemma allHostOk_app evs1 evs2 :
  allHostOk (evs1 ++ evs2) = allHostOk evs1 && allHostOk evs2.
Proof. apply forallb_app. Qed.

Lemma LoopTrace_no_close wr file offset evs b wr' ok :
  LoopTrace wr file offset evs b -> ~ In (EvHost (CClose wr') ok) evs.
Proof.
  intros Ht Hin. pose proof (LoopTrace_events _ _ _ _ _ Ht) as Hall.
  rewrite List.Forall_forall in Hall. exact (Hall _ Hin).
Qed.

Lemma WriteTrace_completed handle file evs b :
  WriteTrace handle file evs b ->
  (b = true <-> completed handle file evs) /\
  (allHostOk evs = false -> b = false).
Proof.
  destruct 1 as [e|wr evs e Ht|wr evs e Ht|wr evs Ht].
  - split; [|reflexivity]. split; [discriminate|].
    intros (_ & _ & wr & [Hin|[Hin|[]]]); discriminate.
  - split; [|reflexivity]. split; [discriminate|].
    intros (_ & _ & wr' & [Hin|Hin]); [discriminate|].
    apply in_app_or in Hin as [Hin|[Hin|[]]]; [|discriminate].
    destruct (LoopTrace_no_close _ _ _ _ _ _ _ Ht Hin).
  - split; [|reflexivity]. split; [discriminate|].
    intros (_ & _ & wr' & [Hin|Hin]); [discriminate|].
    apply in_app_or in Hin as [Hin|[Hin|[Hin|[]]]]; try discriminate.
    destruct (LoopTrace_no_close _ _ _ _ _ _ _ Ht Hin).
  - destruct (LoopTrace_complete _ _ _ _ Ht) as (Hb & Hok & _).
    split.
    + split; [intros _|reflexivity]. repeat split.
      * now left.
      * change (bytesWritten (?e :: ?l)) with (bytesWritten l).
        rewrite bytesWritten_app, Hb. cbn. now rewrite app_nil_r.
      * exists wr. right. apply in_or_app. right. now left.
    + change (allHostOk (?e :: ?l)) with (allHostOk l).
      rewrite allHostOk_app, Hok. cbn. discriminate.
Qed.

Section WithHost.
Context {H : Type} (ops : HostOps H).

(** [writeFile] starts by asking the host for a stream on the handle. *)
Lemma writeFile_opens handle file cb (w : World H) :
  head (eventsOf (writeFile ops handle file cb w)) =
  Some (EvHost (CCreateWritable handle)
          (isOk (fst (createWritable ops handle (host w))))).
Proof.
  unfold writeFile, tryCatch, bind, hostCall.
  destruct (createWritable ops handle (host w)) as [[wr|e] h1]; run_simpl;
    [|reflexivity].
  destruct (writeLoop ops _ wr file cb 0 _) as [[[[]|e] w2] ev2]; run_simpl;
    [|reflexivity].
  destruct (close ops wr (host w2)) as [[[]|e] h3]; reflexivity.
Qed.

(** C10.  [writeFile] never throws: for every handle, source file and
    progress callback it resolves to a boolean.  Its first step is to open a
    stream on the handle.  The boolean is [true] exactly when the stream was
    opened, the whole source written and the stream closed, and [false] as
    soon as one of the host steps threw; and a run in which no host step
    throws, with a callback that does not throw either, resolves to
    [true]. *)
Theorem writeFile_total handle file cb (w : World H) :
  let r := writeFile ops handle file cb w in
  exists b, outcomeOf r = Ok b /\
    (b = true <-> completed handle file (eventsOf r)) /\
    (allHostOk (eventsOf r) = false -> b = false) /\
    head (eventsOf r) =
      Some (EvHost (CCreateWritable handle)
              (isOk (fst (createWritable ops handle (host w))))) /\
    ((forall q s, fst (cb q s) = Ok tt) ->
     allHostOk (eventsOf r) = true -> b = true).
Proof.
  cbv zeta. destruct (writeFile_trace ops handle file cb w) as (b & Hr & Ht & _).
  exists b. split; [exact Hr|].
  destruct (WriteTrace_completed _ _ _ _ Ht) as [Hc Hf].
  split; [exact Hc|]. split; [exact Hf|]. split; [apply writeFile_opens|].
  intros Hcb Hok.
  pose proof (writeFile_quiet ops handle file cb w Hcb Hok) as Hq.
  rewrite Hr in Hq. now injection Hq.
Qed.

(** C5, as the code has it.  [writeFile] writes the source in windows of
    [chunkSize = 1024 * 1024] bytes (the last one holds what is left), calls
    the progress callback once right after each chunk written, with values
    in [0, 1] that never decrease; when it resolves to [true] the bytes
    written are the source and, for a non-empty file, the last value
    reported is 1, while for an empty file nothing is written and the
    callback is never called. *)
Theorem writeFile_chunked_progress handle file cb (w : World H) :
  let r := writeFile ops handle file cb w in
  let chunks := writtenChunks (eventsOf r) in
  let ps := progressValues (eventsOf r) in
  (forall i c, chunks !! i = Some c ->
     c = slice file (i * chunkSize) ((i + 1) * chunkSize) /\
     0 < length c <= chunkSize) /\
  (exists wr,
     List.filter isStep (eventsOf r) =
     concat (zip_with (fun c q => [EvHost (CWrite wr c) true; EvProgress q])
                      chunks ps)) /\
  length ps = length chunks /\
  (forall i q, ps !! i = Some q ->
     q = ratio (Nat.min ((i + 1) * chunkSize) (fileSize file)) (fileSize file) /\
     (0 <= q)%Q /\ (q <= 1)%Q) /\
  (forall i j qi qj, i <= j -> ps !! i = Some qi -> ps !! j = Some qj ->
     (qi <= qj)%Q) /\
  (outcomeOf r = Ok true ->
     bytesWritten (eventsOf r) = fileBytes file /\
     (0 < fileSize file -> exists q, last ps = Some q /\ (q == 1)%Q) /\
     (fileSize file = 0 -> chunks = [] /\ ps = [])).
Proof.
  cbv zeta. destruct (writeFile_trace ops handle file cb w) as (b & Hr & Ht & _).
  rewrite Hr.
  destruct (WriteTrace_loop _ _ _ _ Ht)
    as [(-> & -> & -> & ->)|(wr & lev & b' & Hl & -> & -> & -> & Hbb')].
  { split; [intros i c Hi; now rewrite lookup_nil in Hi|].
    split; [exists 0; reflexivity|]. split; [reflexivity|].
    split; [intros i q Hi; now rewrite lookup_nil in Hi|].
    split; [intros i j qi qj _ Hi; now rewrite lookup_nil in Hi|].
    discriminate. }
  pose proof (LoopTrace_chunks _ _ _ _ _ Hl) as Hc.
  pose proof (LoopTrace_progress _ _ _ _ _ Hl) as Hp.
  destruct (LoopTrace_steps _ _ _ _ _ Hl) as [Hlen Hsteps].
  assert (Hq : forall i q, progressValues lev !! i = Some q ->
            q = ratio (Nat.min ((i + 1) * chunkSize) (fileSize file))
                      (fileSize file) /\ 0 < fileSize file).
  { intros i q Hi. destruct (Hp i q Hi) as [-> Hlt]. split; [|lia].
    apply ratio_ext. lia. }
  pose proof chunkSize_pos as Hcs.
  split; [|split; [|split; [|split; [|split]]]].
  - intros i c Hi. destruct (Hc i c Hi) as [-> Hlt].
    split; [apply slice_ext; lia|]. rewrite slice_length. lia.
  - exists wr. exact Hsteps.
  - exact Hlen.
  - intros i q Hi. destruct (Hq i q Hi) as [-> Hpos].
    split; [reflexivity|]. split; [apply ratio_nonneg|apply ratio_le_1; lia].
  - intros i j qi qj Hij Hi Hj.
    destruct (Hq i qi Hi) as [-> _]. destruct (Hq j qj Hj) as [-> _].
    apply ratio_le. nia.
  - intros Hok. injection Hok as Hb. subst b.
    specialize (Hbb' eq_refl). subst b'.
    split; [|split].
    + pose proof (WriteTrace_completed _ _ _ _ Ht) as [[Hcomp _] _].
      destruct (Hcomp eq_refl) as (_ & Hbytes & _). exact Hbytes.
    + intros Hpos.
      destruct (LoopTrace_complete _ _ _ _ Hl) as (_ & _ & Hlast).
      rewrite (Hlast Hpos). eexists. split; [reflexivity|].
      now apply ratio_full.
    + intros Hzero. split.
      * destruct (writtenChunks lev) as [|c cs] eqn:E; [reflexivity|].
        destruct (Hc 0 c) as [_ Hlt]; [reflexivity|]. lia.
      * destruct (progressValues lev) as [|q qs] eqn:E; [reflexivity|].
        destruct (Hp 0 q) as [_ Hlt]; [reflexivity|]. lia.
Qed.

End WithHost.

(** An empty file is written with success and without a single progress
    report: there is no final progress value 1.0. *)
Lemma writeFile_blank_no_progress :
  outcomeOf (writeFile (scriptedOps calm) blankHandle blank idle
               (startWorld initialSession)) = Ok true /\
  progressValues
    (eventsOf (writeFile (scriptedOps calm) blankHandle blank idle
                 (startWorld initialSession))) = [] /\
  ~ (exists q,
       last (progressValues
               (eventsOf (writeFile (scriptedOps calm) blankHandle blank idle
                            (startWorld initialSession)))) = Some q /\
       (q == 1)%Q).
Proof.
  split; [vm_compute; reflexivity|]. split; [vm_compute; reflexivity|].
  intros (q & Hq & _). vm_compute in Hq. discriminate.
Qed.

(** The three bytes of [report] on a calm host: one chunk, one report, 1. *)
Lemma writeFile_report_progress :
  bytesWritten
    (eventsOf (writeFile (scriptedOps calm) reportHandle report idle
                 (startWorld initialSession))) = fileBytes report /\
  exists q,
    last (progressValues
            (eventsOf (writeFile (scriptedOps calm) reportHandle report idle
                         (startWorld initialSession)))) = Some q /\
    (q == 1)%Q.
Proof.
  destruct (writeFile_chunked_progress (scriptedOps calm) reportHandle report
              idle (startWorld initialSession)) as (_ & _ & _ & _ & _ & Hdone).
  destruct Hdone as (Hbytes & Hlast & _); [vm_compute; reflexivity|].
  split; [exact Hbytes|]. apply Hlast. unfold fileSize. cbn. lia.
Defined.

(** On a calm host the three bytes of [report] are written and the write
    resolves to [true]; on a full disk it resolves to [false]. *)
Lemma writeFile_total_report :
  outcomeOf (writeFile (scriptedOps calm) reportHandle report idle
               (startWorld initialSession)) = Ok true /\
  completed reportHandle report
    (eventsOf (writeFile (scriptedOps calm) reportHandle report idle
                 (startWorld initialSession))) /\
  outcomeOf (writeFile (scriptedOps diskFull) reportHandle report idle
               (startWorld initialSession)) = Ok false.
Proof.
  destruct (writeFile_total (scriptedOps calm) reportHandle report idle
              (startWorld initialSession)) as (b & Hr & Hc & _ & _ & Hq).
  destruct (writeFile_total (scriptedOps diskFull) reportHandle report idle
              (startWorld initialSession)) as (b' & Hr' & _ & Hf & _).
  assert (Hb : b = true).
  { apply Hq; [reflexivity|vm_compute; reflexivity]. }
  assert (Hb' : b' = false).
  { apply Hf. vm_compute. reflexivity. }
  subst b b'. split; [exact Hr|]. split; [now apply Hc|exact Hr'].
Defined.

End Write.

(** ** The Handle Store *)

Module Store.

Section WithHost.
Context {H : Type} (ops : HostOps H).

(** [removeDirectoryHandle] removes the entry when there is one, and
    resolves to [undefined] whether or not there was one: with an entry
    present the value of [get(id) && del(id)] is the result of [del]. *)
Lemma removeDirectoryHandle_run id' (w : World H) :
  removeDirectoryHandle id' w =
  (Ok JsUndefined, mkWorld (host w) (delete id' (idb w)) (session w), []).
Proof.
  unfold removeDirectoryHandle, bind, idbGet, idbDel, ret. run_simpl.
  destruct (idb w !! id') as [h|] eqn:E; cbn.
  - reflexivity.
  - rewrite delete_id by exact E. destruct w; reflexivity.
Qed.

Lemma getDirectoryHandle_run id' (w : World H) :
  getDirectoryHandle id' w = (Ok (idb w !! id'), w, []).
Proof. reflexivity. Qed.

(** [save] then [get] returns the handle saved. *)
Lemma saveDirectoryHandle_get handle (w : World H) :
  let r := saveDirectoryHandle ops handle w in
  exists id', outcomeOf r = Ok id' /\ idb (worldOf r) !! id' = Some handle.
Proof.
  cbv zeta. unfold saveDirectoryHandle, bind, idbSet, ret.
  destruct (randomUUID ops (host w)) as [u h1]. run_simpl.
  exists u. split; [reflexivity|]. cbn. apply lookup_insert_eq.
Qed.

End WithHost.

(** C9, at an entry that is present.  With ["uuid-0"] stored,
    [removeDirectoryHandle("uuid-0")] removes the entry and resolves to
    [undefined], a falsy value, where its documentation promises [true]. *)
Theorem removeDirectoryHandle_present_is_falsy :
  let w := mkWorld 0 (<["uuid-0" := docs]> ∅) initialSession in
  let r := removeDirectoryHandle "uuid-0" w in
  idb w !! "uuid-0" = Some docs /\
  outcomeOf r = Ok JsUndefined /\
  outcomeOf r <> Ok (JsBoolean true) /\
  idb (worldOf r) !! "uuid-0" = None.
Proof.
  cbv zeta. rewrite removeDirectoryHandle_run. cbn.
  split; [apply lookup_insert_eq|]. split; [reflexivity|].
  split; [discriminate|]. apply lookup_delete_eq.
Qed.

End Store.

(** ** Notifications in a trace *)

Module Notices.

Lemma toasts_app evs1 evs2 : toasts (evs1 ++ evs2) = toasts evs1 ++ toasts evs2.
Proof. apply omap_app. Qed.

Lemma toasts_none evs :
  (forall e, In e evs -> toastOf e = None) -> toasts evs = [].
Proof.
  induction evs as [|e l IH]; intros Hall; [reflexivity|].
  unfold toasts. cbn. rewrite (Hall e (or_introl eq_refl)).
  apply IH. intros e' He'. apply Hall. now right.
Qed.

(** The gate emits no notification and no directory-changing call. *)
Lemma gate_quiet {H} (ops : HostOps H) handle mode (w : World H) :
  let evs := eventsOf (requestDirectoryPermission ops handle mode w) in
  toasts evs = [] /\ List.filter isMutation evs = [] /\
  forall e, In e evs -> toastOf e = None /\ isMutation e = false.
Proof.
  cbv zeta.
  pose proof (Gate.requestDirectoryPermission_frame ops handle mode w)
    as (_ & _ & Hev).
  rewrite List.Forall_forall in Hev.
  assert (Hq : forall e,
            In e (eventsOf (requestDirectoryPermission ops handle mode w)) ->
            toastOf e = None /\ isMutation e = false).
  { intros e He. specialize (Hev e He).
    destruct e as [[] ?| | |]; cbn in Hev; try discriminate; split; reflexivity. }
  split; [apply toasts_none; intros e He; now apply Hq|].
  split; [|exact Hq].
  induction (eventsOf (requestDirectoryPermission ops handle mode w))
    as [|e l IH]; [reflexivity|].
  cbn. rewrite (proj2 (Hq e (or_introl eq_refl))).
  apply IH; intros e' He'; [apply Hev|apply Hq]; now right.
Qed.

End Notices.
Export Notices.

(** ** Entering and adding directories *)

Module Roots.

Section WithHost.
Context {H : Type} (ops : HostOps H).

(** The verdict of the gate is decided by the host alone. *)
Lemma gate_host_only handle mode (w w' : World H) :
  host w = host w' ->
  outcomeOf (requestDirectoryPermission ops handle mode w) =
  outcomeOf (requestDirectoryPermission ops handle mode w').
Proof.
  intros Hh. unfold requestDirectoryPermission, tryCatch, bind, hostCall.
  rewrite <- Hh.
  destruct (queryPermission ops handle mode (host w)) as [[p|e] h1]; run_simpl.
  - destruct (decide (p = Granted)); [reflexivity|].
    destruct (decide (p = Prompt)); [|reflexivity]. run_simpl.
    destruct (requestPermission ops handle mode h1) as [[p'|e'] h2]; reflexivity.
  - reflexivity.
Qed.

(** C7.  Entering a registered record whose stored handle is missing or
    does not pass the Permission Gate removes the record from the registry
    and its entry from the Handle Store, emits exactly one notification
    (the stale-authorisation warning), and leaves the view and the
    navigation stack as they were, so a session in Home with an empty stack
    stays there; no handle is stored for the record again and the directory
    picker is not opened. *)
Theorem enterDirectory_prunes directoryData (w : World H) :
  In directoryData (storedDirectories (session w)) ->
  currentView (session w) = ViewHome ->
  currentPathDirectories (session w) = [] ->
  unusable ops directoryData w ->
  let r := enterDirectory ops directoryData w in
  outcomeOf r = Ok tt /\
  storedDirectories (session (worldOf r)) =
    List.filter (fun dir => negb (bool_decide (id dir = id directoryData)))
                (storedDirectories (session w)) /\
  ~ In directoryData (storedDirectories (session (worldOf r))) /\
  idb (worldOf r) = delete (id directoryData) (idb w) /\
  idb (worldOf r) !! id directoryData = None /\
  toasts (eventsOf r) = [toastStale] /\
  ~ In (EvHost CShowDirectoryPicker true) (eventsOf r) /\
  currentView (session (worldOf r)) = ViewHome /\
  currentPathDirectories (session (worldOf r)) = [] /\
  loading (session (worldOf r)) = false.
Proof.
  intros Hin Hview Hstack Hbad. cbv zeta.
  assert (Hnot : forall l : list StoredDirectoryInfo,
            ~ In directoryData
                (List.filter
                   (fun dir => negb (bool_decide (id dir = id directoryData))) l)).
  { intros l Hl. apply List.filter_In in Hl as [_ Hl].
    rewrite bool_decide_eq_true_2 in Hl by reflexivity. discriminate. }
  unfold enterDirectory, removeDirectory.
  unfold tryFinally, tryCatch, bind, modifySession,
    getDirectoryHandle, idbGet, toastAdd, emit, ret.
  run_simpl.
  destruct Hbad as [Hnone|(h & Hsome & Hgate)].
  - rewrite Hnone. rewrite Store.removeDirectoryHandle_run. cbn.
    rewrite Hview, Hstack. repeat split; auto.
    + apply lookup_delete_eq.
    + intros [Hc|[]]; discriminate.
  - rewrite Hsome.
    match goal with
    | |- context [requestDirectoryPermission ops h ModeReadWrite ?w1] =>
        pose proof (gate_host_only h ModeReadWrite w1 w eq_refl) as Hsame;
        pose proof (Gate.requestDirectoryPermission_frame ops h ModeReadWrite w1)
          as (Hs & Hi & Hev);
        destruct (requestDirectoryPermission ops h ModeReadWrite w1)
          as [[[b|e] w2] ev2]
    end; run_simpl; rewrite Hgate in Hsame; [|discriminate].
    injection Hsame as ->. rewrite Store.removeDirectoryHandle_run. cbn in *.
    rewrite Hs, Hi. cbn. rewrite Hview, Hstack.
    assert (Hquiet : forall e, In e ev2 ->
              toastOf e = None /\ e <> EvHost CShowDirectoryPicker true).
    { intros e He. rewrite List.Forall_forall in Hev. specialize (Hev e He).
      destruct e as [[] ?| | |]; cbn in Hev; try discriminate;
        split; (reflexivity || discriminate). }
    repeat split; auto.
    + apply lookup_delete_eq.
    + fold (toasts ((ev2 ++ [EvToast toastStale]) ++ [])).
      rewrite app_nil_r, toasts_app, (toasts_none ev2); [reflexivity|].
      intros e He. now apply Hquiet.
    + intros Hc. rewrite app_nil_r in Hc.
      apply in_app_or in Hc as [Hc|[Hc|[]]]; [|discriminate].
      now apply (Hquiet _ Hc).
Qed.

(** A comparison that throws ends the duplicate search on the spot: the
    error leaves the loop and the candidates after it are not examined. *)
Lemma findSameEntry_aborts handle directoryInfo rest (w : World H) h e hst' :
  idb w !! id directoryInfo = Some h ->
  hostIsSameEntry ops handle h (host w) = (Thrown e, hst') ->
  findSameEntry ops handle (directoryInfo :: rest) w =
  (Thrown e, mkWorld hst' (idb w) (session w),
   [EvHost (CIsSameEntry handle h) false]).
Proof.
  intros Hget Hcmp. cbn [findSameEntry].
  unfold bind, getDirectoryHandle, idbGet, isSameEntry, hostCall. run_simpl.
  rewrite Hget. cbn. unfold bind. rewrite Hcmp. reflexivity.
Qed.

End WithHost.

(** A record whose handle is gone from the Handle Store is pruned. *)
Lemma enterDirectory_prunes_missing :
  storedDirectories
    (session (worldOf (enterDirectory (scriptedOps calm) (mkInfo "uuid-0" "Docs")
                         (startWorld atHome)))) = [] /\
  toasts (eventsOf (enterDirectory (scriptedOps calm) (mkInfo "uuid-0" "Docs")
                      (startWorld atHome))) = [toastStale] /\
  currentView
    (session (worldOf (enterDirectory (scriptedOps calm) (mkInfo "uuid-0" "Docs")
                         (startWorld atHome)))) = ViewHome.
Proof.
  destruct (enterDirectory_prunes (scriptedOps calm) (mkInfo "uuid-0" "Docs")
              (startWorld atHome))
    as (_ & Hreg & _ & _ & _ & Htoast & _ & Hview & _).
  - left. reflexivity.
  - reflexivity.
  - reflexivity.
  - left. reflexivity.
  - split; [|split]; [rewrite Hreg; reflexivity|exact Htoast|exact Hview].
Defined.

(** C8, at a comparison that throws.  [Docs] and [Music] are registered,
    the user picks [Music] again and the host throws on the comparison with
    [Docs]: the add operation stops with the failure notification, [Music]
    is never compared, and the duplicate goes unreported. *)
Theorem addNewDirectory_comparison_error_aborts :
  comparisons (eventsOf (addNewDirectory (scriptedOps docsNotComparable) twoRoots))
    = [docs] /\
  toasts (eventsOf (addNewDirectory (scriptedOps docsNotComparable) twoRoots))
    = [mkToast "添加目录失败" (errMessage notAllowed) ColorError] /\
  storedDirectories
    (session (worldOf (addNewDirectory (scriptedOps docsNotComparable) twoRoots)))
    = storedDirectories (session twoRoots).
Proof. vm_compute. repeat split. Qed.

End Roots.

(** ** The pre-flight contract of the mutation operations *)

Module Preflight.

Section WithHost.
Context {H : Type} (ops : HostOps H).

Ltac gate_run top :=
  match goal with
  | |- context [requestDirectoryPermission ops (frameHandle top) ModeReadWrite ?w] =>
      let Hb := fresh "Hb" in
      let Hq := fresh "Hq" in
      destruct (Gate.requestDirectoryPermission_total ops (frameHandle top)
                  ModeReadWrite w) as [? Hb];
      pose proof (gate_quiet ops (frameHandle top) ModeReadWrite w) as Hq;
      cbv zeta in Hq;
      destruct (requestDirectoryPermission ops (frameHandle top) ModeReadWrite w)
        as [[[[|]|?] ?] ?]; run_simpl; try discriminate Hb
  end.

(** C6.  Each mutation operation (upload, delete entry, create folder)
    first takes the top of the navigation stack as its target and, when the
    stack is empty, does nothing but emit its "no target directory"
    notification; it then runs the Permission Gate on the target with mode
    readwrite and, when the gate denies, does nothing more than emit its
    "insufficient permission" notification; a directory-changing host call
    is made only with a target in hand and after the gate has granted. *)
Theorem mutation_preflight (m : Mutation) (w : World H) :
  let r := runMutation ops m w in
  (last (currentPathDirectories (session w)) = None ->
   r = (Ok tt, w, [EvToast (toastNoTarget m)])) /\
  (forall top, last (currentPathDirectories (session w)) = Some top ->
     let g := requestDirectoryPermission ops (frameHandle top) ModeReadWrite w in
     (outcomeOf g = Ok false ->
      r = (Ok tt, worldOf g, eventsOf g ++ [EvToast (toastDenied m)]) /\
      List.filter isMutation (eventsOf r) = []) /\
     (forall e, In e (eventsOf r) -> isMutation e = true ->
        outcomeOf g = Ok true /\
        exists rest, eventsOf r = eventsOf g ++ rest /\ In e rest)).
Proof.
  cbv zeta. split.
  - intros Hnone. destruct m; cbn [runMutation];
      unfold handleFileUpload, deleteItem, createNewFolder, bind, getSession;
      run_simpl; rewrite Hnone; reflexivity.
  - intros top Htop. split.
    + intros Hden. destruct m; cbn [runMutation];
        unfold handleFileUpload, deleteItem, createNewFolder, bind, getSession;
        run_simpl; rewrite Htop; gate_run top;
        try discriminate Hden;
        cbn; (split; [reflexivity|]);
        rewrite List.filter_app; cbn; rewrite (proj1 (proj2 Hq)); reflexivity.
    + intros e He Hmut.
      destruct (Gate.requestDirectoryPermission_total ops (frameHandle top)
                  ModeReadWrite w) as [b Hb].
      pose proof (gate_quiet ops (frameHandle top) ModeReadWrite w) as Hq.
      cbv zeta in Hq. destruct Hq as (_ & _ & Hq).
      destruct m; cbn [runMutation] in *;
        unfold handleFileUpload, deleteItem, createNewFolder in *;
        rewrite bind_events in *; cbn [getSession eventsOf outcomeOf worldOf
                                       fst snd app] in *;
        rewrite Htop in *; rewrite bind_events in *; rewrite Hb in *;
        (apply in_app_or in He as [He|He];
         [destruct (Hq e He) as [_ Hno]; congruence|]);
        (destruct b; cbn [negb] in *;
         [|destruct He as [<-|[]]; discriminate Hmut]);
        (split; [reflexivity|]); eexists; (split; [reflexivity|exact He]).
Qed.

End WithHost.

(** With the permission revoked an upload into [Docs] ends at the gate:
    one query, the "insufficient permission" notification, no handle
    requested and not a byte written. *)
Lemma upload_denied_at_gate :
  eventsOf (handleFileUpload (scriptedOps revoked) [report]
              (startWorld (browsing [])))
  = [EvHost (CQueryPermission docs ModeReadWrite) true;
     EvToast (toastDenied (Upload [report]))] /\
  List.filter isMutation
    (eventsOf (handleFileUpload (scriptedOps revoked) [report]
                 (startWorld (browsing [])))) = [].
Proof.
  destruct (mutation_preflight (scriptedOps revoked) (Upload [report])
              (startWorld (browsing []))) as [_ Htop].
  destruct (Htop (mkFrame "Docs" docs) eq_refl) as [Hdenied _].
  destruct Hdenied as [Hrun Hnone]; [vm_compute; reflexivity|].
  split; [|exact Hnone].
  change (handleFileUpload (scriptedOps revoked) [report])
    with (runMutation (scriptedOps revoked) (Upload [report])).
  rewrite Hrun. vm_compute. reflexivity.
Defined.

End Preflight.

(** ** Batch upload *)

Module Upload.

Lemma findExistingFile_Some snapshot file :
  matchesSnapshot snapshot file <->
  exists item, findExistingFile snapshot (fileName file) = Some item.
Proof.
  unfold matchesSnapshot, findExistingFile. split.
  - intros (item & Hin & Hname & Hkind).
    destruct (List.find _ snapshot) as [found|] eqn:E; [eauto|].
    pose proof (List.find_none _ _ E item Hin) as Hno. cbn in Hno.
    rewrite !bool_decide_eq_true_2 in Hno by assumption. discriminate.
  - intros (item & Hfind). apply List.find_some in Hfind as [Hin Hp].
    apply andb_prop in Hp as [Hn Hk].
    apply bool_decide_eq_true_1 in Hn, Hk. eauto.
Qed.

Lemma findExistingFile_None snapshot file :
  ~ matchesSnapshot snapshot file <->
  findExistingFile snapshot (fileName file) = None.
Proof.
  rewrite findExistingFile_Some.
  destruct (findExistingFile snapshot (fileName file)) as [item|].
  - split; [intros Hno; destruct Hno; eauto|discriminate].
  - split; [reflexivity|]. intros _ [item Hitem]. discriminate.
Qed.

Section WithHost.
Context {H : Type} (ops : HostOps H).

(** One round of the loop never throws, leaves the snapshot and the Handle
    Store alone, and its events have one of the three shapes. *)
Lemma uploadFile_trace dir file (w : World H) :
  let r := uploadFile ops dir file w in
  outcomeOf r = Ok tt /\
  fileList (session (worldOf r)) = fileList (session w) /\
  UploadTrace (fileList (session w)) dir file (eventsOf r).
Proof.
  cbv zeta. unfold uploadFile.
  unfold bind, setProgress, modifySession, getSession, toastAdd, emit, ret.
  run_simpl. cbn [fileList setUploadProgress].
  destruct (findExistingFile (fileList (session w)) (fileName file))
    as [existingFile|] eqn:Efind.
  - cbn. repeat split. econstructor. exact Efind.
  - unfold tryCatch, createNewFile, hostCall. run_simpl.
    destruct (hostGetFileHandle ops dir (fileName file) (host w))
      as [[fileHandle|e] h1]; run_simpl.
    + match goal with
      | |- context [writeFile ops fileHandle file ?cb ?w1] =>
          destruct (writeFile_trace ops fileHandle file cb w1)
            as (b & Hr & Ht & _);
          pose proof (writeFile_quiet ops fileHandle file cb w1
                        (fun _ _ => eq_refl)) as Hquiet;
          cbv zeta in Hquiet;
          pose proof (writeFile_session ops fileHandle file cb
                        (fun s => fileList s = fileList (session w)) w1)
            as Hs;
          destruct (writeFile ops fileHandle file cb w1) as [[r w2] ev2]
      end.
      run_simpl. subst r. cbn.
      split; [reflexivity|]. split.
      * apply Hs; [|reflexivity]. intros q s Hfl. exact Hfl.
      * apply UploadWritten with (fileHandle := fileHandle) (b := b);
          [assumption|assumption|].
        intros Hok. specialize (Hquiet Hok). congruence.
    + cbn. repeat split. apply UploadCreateThrows. exact Efind.
Qed.

(** The loop never throws, and its events are the traces of its files, one
    after the other, each read against the snapshot the loop started with. *)
Lemma uploadFiles_traces dir files : forall (w : World H),
  let r := uploadFiles ops dir files w in
  outcomeOf r = Ok tt /\
  fileList (session (worldOf r)) = fileList (session w) /\
  exists evss,
    eventsOf r = concat evss /\
    Forall2 (UploadTrace (fileList (session w)) dir) files evss.
Proof.
  induction files as [|file rest IH]; intros w; cbv zeta.
  - cbn. repeat split. exists []. split; constructor.
  - cbn [uploadFiles]. unfold bind.
    destruct (uploadFile_trace dir file w) as (Hr & Hs & Ht).
    destruct (uploadFile ops dir file w) as [[r w1] ev1]. run_simpl. subst r.
    destruct (IH w1) as (Hr' & Hs' & evss & Hev & Hall).
    destruct (uploadFiles ops dir rest w1) as [[r' w2] ev2]. run_simpl.
    split; [exact Hr'|]. split; [congruence|].
    exists (ev1 :: evss). split; [cbn; congruence|].
    constructor; [exact Ht|]. rewrite <- Hs. exact Hall.
Qed.

(** What the trace of one file says. *)
Lemma UploadTrace_facts snapshot dir file evs :
  UploadTrace snapshot dir file evs ->
  (matchesSnapshot snapshot file ->
     evs = [EvToast (toastSkipped (fileName file))]) /\
  (~ matchesSnapshot snapshot file ->
     (exists ok rest,
        evs = EvHost (CGetFileHandle dir (fileName file)) ok :: rest) /\
     (allHostOk evs = true -> bytesWritten evs = fileBytes file)).
Proof.
  intros Ht. split.
  - intros Hm. apply findExistingFile_Some in Hm as [item Hitem].
    destruct Ht as [existing Hf|e Hf|fh wevs b Hf Hw Hb];
      [reflexivity|congruence|congruence].
  - intros Hm. apply findExistingFile_None in Hm.
    destruct Ht as [existing Hf|e Hf|fh wevs b Hf Hw Hb]; [congruence| |].
    + split; [eauto|]. discriminate.
    + split; [eauto|]. intros Hok.
      change (allHostOk (?e :: ?l)) with (allHostOk l) in Hok.
      rewrite Write.allHostOk_app in Hok.
      apply andb_prop in Hok as [Hok _]. specialize (Hb Hok). subst b.
      destruct (Write.WriteTrace_completed _ _ _ _ Hw) as [[Hc _] _].
      destruct (Hc eq_refl) as (_ & Hbytes & _).
      change (bytesWritten (?e :: ?l)) with (bytesWritten l).
      rewrite bytesWritten_app, Hbytes. cbn. apply app_nil_r.
Qed.

(** Without interference the loop is the sequential one, and every turn
    sees the snapshot displayed when the batch started. *)
Lemma uploadFilesAmid_alone dir files : forall w : World H,
  uploadFilesAmid ops [] dir files w = uploadFiles ops dir files w /\
  turnSnapshots ops [] dir files w
  = replicate (length files) (fileList (session w)).
Proof.
  induction files as [|file rest IH]; intros w; [split; reflexivity|].
  cbn [uploadFilesAmid uploadFiles turnSnapshots hd tl length replicate].
  unfold bind, interfere, untouched. run_simpl.
  destruct (uploadFile_trace dir file w) as (Hr & Hs & _).
  destruct (uploadFile ops dir file w) as [[r w1] ev1]. run_simpl. subst r.
  destruct (IH w1) as [Hrun Hsnap]. rewrite Hrun, Hsnap, Hs.
  split; [|reflexivity].
  destruct (uploadFiles ops dir rest w1) as [[r' w2] ev2]. reflexivity.
Qed.

Lemma uploadFilesAmid_traces dir files : forall others (w : World H),
  let r := uploadFilesAmid ops others dir files w in
  outcomeOf r = Ok tt /\
  exists evss,
    eventsOf r = concat evss /\
    Forall3 (fun snapshot file evs => UploadTrace snapshot dir file evs)
            (turnSnapshots ops others dir files w) files evss.
Proof.
  induction files as [|file rest IH]; intros others w; cbv zeta.
  - cbn. split; [reflexivity|]. exists []. split; constructor.
  - cbn [uploadFilesAmid turnSnapshots]. unfold bind, interfere. run_simpl.
    destruct (uploadFile_trace dir file (hd untouched others w)) as (Hr & _ & Ht).
    destruct (uploadFile ops dir file (hd untouched others w)) as [[r w1] ev1].
    run_simpl. subst r.
    destruct (IH (tl others) w1) as (Hr' & evss & Hev & Hall).
    destruct (uploadFilesAmid ops (tl others) dir rest w1) as [[r' w2] ev2].
    run_simpl. split; [exact Hr'|].
    exists (ev1 :: evss). split; [cbn; congruence|].
    constructor; assumption.
Qed.

(** C2, as the code has it.  In a batch upload every file is handled in
    its turn against the snapshot displayed when that turn comes, whatever
    the rest of the page did in between.  A file whose name matches an entry
    of kind file of that snapshot is skipped: the only event for it is the
    skip notification, so no handle is requested and no byte is written.
    For a file without such a match a file handle is requested first, and
    when no host call made for the file throws, the bytes written are the
    bytes of the source.  When nothing else happens on the page during the
    batch, the loop is the sequential one and every turn sees the snapshot
    displayed when the batch started. *)
Theorem upload_skips_or_writes dir files others (w : World H) :
  let r := uploadFilesAmid ops others dir files w in
  outcomeOf r = Ok tt /\
  (exists evss,
     eventsOf r = concat evss /\
     Forall3
       (fun snapshot file evs =>
          (matchesSnapshot snapshot file ->
             evs = [EvToast (toastSkipped (fileName file))] /\
             List.filter isMutation evs = [] /\ bytesWritten evs = []) /\
          (~ matchesSnapshot snapshot file ->
             (exists ok rest,
                evs = EvHost (CGetFileHandle dir (fileName file)) ok :: rest) /\
             (allHostOk evs = true -> bytesWritten evs = fileBytes file)))
       (turnSnapshots ops others dir files w) files evss) /\
  uploadFilesAmid ops [] dir files w = uploadFiles ops dir files w /\
  turnSnapshots ops [] dir files w
  = replicate (length files) (fileList (session w)).
Proof.
  cbv zeta.
  destruct (uploadFilesAmid_traces dir files others w) as (Hr & evss & Hev & Hall).
  split; [exact Hr|]. split; [|apply uploadFilesAmid_alone].
  exists evss. split; [exact Hev|].
  eapply Forall3_impl; [exact Hall|].
  intros snapshot file evs Ht.
  destruct (UploadTrace_facts _ _ _ _ Ht) as [Hskip Hwrite].
  split; [|exact Hwrite].
  intros Hm. rewrite (Hskip Hm). repeat split.
Qed.

Lemma WriteTrace_toasts handle file evs b :
  WriteTrace handle file evs b -> toasts evs = [].
Proof.
  assert (Hloop : forall wr offset lev b',
            LoopTrace wr file offset lev b' -> toasts lev = []).
  { induction 1; cbn; auto. }
  destruct 1 as [e|wr lev e Ht|wr lev e Ht|wr lev Ht]; [reflexivity|..];
    change (toasts (?e :: ?l)) with (toasts l);
    rewrite toasts_app, (Hloop _ _ _ _ Ht); reflexivity.
Qed.

(** Every file of a batch gets exactly one notification, whatever happened
    to the files before it: the skip notification exactly when it matches
    the snapshot, the failure notification exactly when the request for its
    handle throws, and the success notification in every other case. *)
Lemma upload_one_notification_each dir files (w : World H) :
  let r := uploadFiles ops dir files w in
  outcomeOf r = Ok tt /\
  exists evss,
    eventsOf r = concat evss /\
    Forall2
      (fun file evs =>
         (matchesSnapshot (fileList (session w)) file /\
          toasts evs = [toastSkipped (fileName file)]) \/
         (~ matchesSnapshot (fileList (session w)) file /\
          exists e, toasts evs = [toastUploadFailed (fileName file) e] /\
                    evs = [EvHost (CGetFileHandle dir (fileName file)) false;
                           EvToast (toastUploadFailed (fileName file) e)]) \/
         (~ matchesSnapshot (fileList (session w)) file /\
          toasts evs = [toastUploaded (fileName file)] /\
          exists rest,
            evs = EvHost (CGetFileHandle dir (fileName file)) true :: rest))
      files evss.
Proof.
  cbv zeta.
  destruct (uploadFiles_traces dir files w) as (Hr & _ & evss & Hev & Hall).
  split; [exact Hr|]. exists evss. split; [exact Hev|].
  eapply Forall2_impl; [exact Hall|].
  intros file evs [existing Hf|e Hf|fh wevs b Hf Hw Hb].
  - left. split; [|reflexivity]. apply findExistingFile_Some. eauto.
  - right; left. split; [now apply findExistingFile_None|]. eauto.
  - right; right. split; [now apply findExistingFile_None|]. split; [|eauto].
    change (toasts (?e :: ?l)) with (toasts l).
    rewrite toasts_app, (WriteTrace_toasts _ _ _ _ Hw). reflexivity.
Qed.

End WithHost.

(** A file that matches nothing in the snapshot and is not written: the
    name [report.txt] is taken by a directory, the host throws on the
    request for a file handle, and the upload of that file fails. *)
Lemma upload_unmatched_not_written :
  ~ matchesSnapshot [directoryItem "report.txt"] report /\
  bytesWritten
    (eventsOf (uploadFiles (scriptedOps nameTaken) docs [report]
                 (startWorld (browsing [directoryItem "report.txt"]))))
  <> fileBytes report.
Proof.
  split.
  - apply findExistingFile_None. reflexivity.
  - vm_compute. discriminate.
Qed.

(** On a calm host [report] is written byte for byte; and [notes], which
    is not in the snapshot when the batch starts but is displayed when its
    turn comes, is skipped. *)
Lemma upload_calm_batch :
  bytesWritten
    (eventsOf (uploadFilesAmid (scriptedOps calm) [] docs [report]
                 (startWorld (browsing [])))) = fileBytes report /\
  eventsOf (uploadFilesAmid (scriptedOps calm)
              [showing [fileItem "notes.txt"]] docs [notes]
              (startWorld (browsing [])))
  = [EvToast (toastSkipped "notes.txt")].
Proof.
  split.
  - destruct (upload_skips_or_writes (scriptedOps calm) docs [report] []
                (startWorld (browsing [])))
      as (_ & (evss & Hev & Hall) & _).
    cbn [turnSnapshots] in Hall.
    inversion Hall as [|snapshot file evs snapshots files' rest [_ Hwrite] Hnil];
      subst.
    inversion Hnil; subst.
    cbn [concat] in Hev. rewrite app_nil_r in Hev. subst evs.
    apply Hwrite.
    + apply findExistingFile_None. reflexivity.
    + vm_compute. reflexivity.
  - destruct (upload_skips_or_writes (scriptedOps calm) docs [notes]
                [showing [fileItem "notes.txt"]] (startWorld (browsing [])))
      as (_ & (evss & Hev & Hall) & _).
    cbn [turnSnapshots] in Hall.
    inversion Hall as [|snapshot file evs snapshots files' rest [Hskip _] Hnil];
      subst.
    inversion Hnil; subst.
    cbn [concat] in Hev. rewrite app_nil_r in Hev. subst evs.
    apply Hskip. apply findExistingFile_Some. eexists. reflexivity.
Defined.

(** C3, at a write that fails.  [report] is uploaded into [Docs] on a full
    disk: the write throws, [writeFile] resolves to [false], not a byte is
    written, and the only notification for the file is the success one. *)
Theorem upload_failed_write_reported_as_success :
  outcomeOf (writeFile (scriptedOps diskFull) reportHandle report idle
               (startWorld (browsing []))) = Ok false /\
  allHostOk (eventsOf (handleFileUpload (scriptedOps diskFull) [report]
                         (startWorld (browsing [])))) = false /\
  bytesWritten (eventsOf (handleFileUpload (scriptedOps diskFull) [report]
                            (startWorld (browsing [])))) = [] /\
  toasts (eventsOf (handleFileUpload (scriptedOps diskFull) [report]
                      (startWorld (browsing []))))
  = [toastUploaded "report.txt"].
Proof. vm_compute. repeat split. Qed.

End Upload.

(** ** The Listing Service *)

Module Listing.

(** *** The sort *)

Section Sort.
Context {A : Type} (compare : A -> A -> Z).
Hypothesis compare_ok : consistentComparator compare.

Lemma notAfter_total a b : notAfter compare a b \/ notAfter compare b a.
Proof.
  destruct compare_ok as [Hanti _]. unfold notAfter.
  specialize (Hanti a b). lia.
Qed.

#[local] Instance notAfter_trans : Transitive (notAfter compare).
Proof. intros a b c. apply (proj2 compare_ok). Qed.

Lemma sortInsert_perm x l : Permutation (sortInsert compare x l) (x :: l).
Proof.
  induction l as [|y l IH]; cbn; [reflexivity|].
  destruct (compare x y <=? 0)%Z; [reflexivity|].
  rewrite IH. apply perm_swap.
Qed.

Lemma arraySort_perm l : Permutation (arraySort compare l) l.
Proof.
  induction l as [|x l IH]; cbn; [reflexivity|].
  rewrite sortInsert_perm. now constructor.
Qed.

Lemma sortInsert_sorted x l :
  Sorted (notAfter compare) l -> Sorted (notAfter compare) (sortInsert compare x l).
Proof.
  induction l as [|y l IH]; intros Hs; cbn.
  - repeat constructor.
  - destruct (Z.leb_spec (compare x y) 0) as [Hle|Hgt].
    + constructor; [exact Hs|]. constructor. exact Hle.
    + apply Sorted_inv in Hs as [Hs Hhd]. constructor; [now apply IH|].
      assert (Hyx : notAfter compare y x).
      { destruct (notAfter_total x y) as [Hxy|Hyx]; [|exact Hyx].
        unfold notAfter in Hxy. lia. }
      destruct l as [|z l]; cbn.
      * constructor. exact Hyx.
      * destruct (compare x z <=? 0)%Z; constructor;
          [exact Hyx|now apply HdRel_inv in Hhd].
Qed.

Lemma arraySort_sorted l : StronglySorted (notAfter compare) (arraySort compare l).
Proof.
  apply Sorted_StronglySorted; [exact notAfter_trans|].
  induction l as [|x l IH]; cbn; [constructor|now apply sortInsert_sorted].
Qed.

End Sort.

(** Two sorted arrangements of the same elements coincide when no two
    distinct elements are tied. *)
Lemma sorted_unique {A} (R : A -> A -> Prop) (l l' : list A) :
  (forall a b, In a l -> In b l -> R a b -> R b a -> a = b) ->
  Permutation l l' -> StronglySorted R l -> StronglySorted R l' -> l = l'.
Proof.
  revert l'. induction l as [|a l IH]; intros l' Hanti Hperm Hs Hs'.
  - apply Permutation_nil in Hperm. now subst.
  - destruct l' as [|b l'].
    { symmetry in Hperm. now apply Permutation_nil in Hperm. }
    apply StronglySorted_inv in Hs as [Hs Ha].
    apply StronglySorted_inv in Hs' as [Hs' Hb].
    rewrite List.Forall_forall in Ha, Hb.
    assert (Hab : a = b).
    { assert (Hina : In a (b :: l')).
      { eapply Permutation_in; [exact Hperm|now left]. }
      assert (Hinb : In b (a :: l)).
      { eapply Permutation_in; [symmetry; exact Hperm|now left]. }
      destruct Hina as [->|Hina]; [reflexivity|].
      destruct Hinb as [->|Hinb]; [reflexivity|].
      apply Hanti; [now left|now right|now apply Ha|now apply Hb]. }
    subst b. f_equal. apply IH; auto.
    + intros x y Hx Hy. apply Hanti; now right.
    + now apply Permutation_cons_inv in Hperm.
Qed.

Lemma StronglySorted_map {A B} (f : A -> B) (R : B -> B -> Prop) (l : list A) :
  StronglySorted (fun a b => R (f a) (f b)) l -> StronglySorted R (map f l).
Proof.
  induction 1 as [|a l Hs IH Ha]; cbn; constructor; [exact IH|].
  rewrite List.Forall_forall in *. intros y Hy.
  apply List.in_map_iff in Hy as (x & <- & Hx). now apply Ha.
Qed.

(** *** The comparator of the listing *)

Lemma compareKeys_consistent lc :
  consistentComparator lc -> consistentComparator (compareKeys lc).
Proof.
  intros [Hanti Htrans]. split.
  - intros [na ka] [nb kb]. unfold compareKeys. cbn.
    destruct ka, kb; repeat (destruct (decide _); try congruence);
      try reflexivity; apply Hanti.
  - intros [na ka] [nb kb] [nc kc]. unfold compareKeys. cbn.
    destruct ka, kb, kc; repeat (destruct (decide _); try congruence);
      try lia; apply Htrans.
Qed.

Section WithHost.
Context {H : Type} (ops : HostOps H).

Lemma compareEntryItems_keys a b :
  compareEntryItems ops a b = compareKeys (localeCompare ops) (keys a) (keys b).
Proof. reflexivity. Qed.

Lemma compareEntryItems_consistent :
  consistentComparator (localeCompare ops) ->
  consistentComparator (compareEntryItems ops).
Proof.
  intros Hlc. destruct (compareKeys_consistent _ Hlc) as [Hanti Htrans]. split.
  - intros a b. rewrite !compareEntryItems_keys. apply Hanti.
  - intros a b c. rewrite !compareEntryItems_keys. apply Htrans.
Qed.

(** In a list sorted by the comparator the directories come first, and
    each kind is sorted by name. *)
Lemma sorted_directories_first items :
  StronglySorted (notAfter (compareEntryItems ops)) items ->
  exists dirs files,
    items = dirs ++ files /\
    Forall (fun item => kind item = KDirectory) dirs /\
    Forall (fun item => kind item = KFile) files /\
    StronglySorted (byName ops) dirs /\
    StronglySorted (byName ops) files.
Proof.
  induction 1 as [|a l Hs IH Ha].
  - exists [], []. repeat split; constructor.
  - destruct IH as (dirs & files & -> & Hd & Hf & Hsd & Hsf).
    rewrite List.Forall_forall in Ha.
    assert (Hsame : forall b, In b (dirs ++ files) -> kind a = kind b ->
                              byName ops a b).
    { intros b Hb Hk. specialize (Ha b Hb).
      unfold notAfter, compareEntryItems in Ha.
      destruct (decide (kind a = kind b)); [exact Ha|contradiction]. }
    destruct (kind a) eqn:Ek.
    + (* a file: nothing after it is a directory *)
      destruct dirs as [|d dirs].
      * exists [], (a :: files). cbn. repeat split; auto.
        constructor; [exact Hsf|]. apply List.Forall_forall. intros b Hb.
        apply Hsame; [exact Hb|].
        rewrite List.Forall_forall in Hf. now rewrite (Hf b Hb).
      * exfalso. specialize (Ha d (or_introl eq_refl)).
        apply Forall_inv in Hd.
        unfold notAfter, compareEntryItems in Ha. rewrite Ek, Hd in Ha.
        repeat (destruct (decide _); try congruence). lia.
    + exists (a :: dirs), files. cbn. repeat split; auto.
      constructor; [exact Hsd|]. apply List.Forall_forall. intros b Hb.
      apply Hsame; [apply in_or_app; now left|].
      rewrite List.Forall_forall in Hd. now rewrite (Hd b Hb).
Qed.

(** The listing is the enumeration, sorted. *)
Lemma listDirectoryEntryItems_enumerate handle (w : World H) :
  listDirectoryEntryItems ops handle w =
  bind (enumerate ops handle)
       (fun entryItems => ret (arraySort (compareEntryItems ops) entryItems)) w.
Proof.
  unfold listDirectoryEntryItems, enumerate, bind.
  destruct (hostCall (CValues handle) (values ops handle) w)
    as [[[entries|e] w1] ev1]; [|reflexivity].
  destruct (collectEntryItems ops entries w1) as [[[items|e] w2] ev2];
    cbn; now rewrite ?app_nil_r.
Qed.

Lemma listing_result handle (w : World H) items :
  outcomeOf (listDirectoryEntryItems ops handle w) = Ok items ->
  exists enumerated,
    outcomeOf (enumerate ops handle w) = Ok enumerated /\
    items = arraySort (compareEntryItems ops) enumerated.
Proof.
  rewrite listDirectoryEntryItems_enumerate. unfold bind.
  destruct (enumerate ops handle w) as [[[enumerated|e] w1] ev1]; cbn.
  - intros [= <-]. eauto.
  - discriminate.
Qed.

(** C4.  With a consistent [localeCompare], the result of
    [listDirectoryEntryItems] is the enumerated children rearranged so that
    every directory precedes every file and each kind is ordered by
    [localeCompare] on names.  For children named b.txt, A.txt (files) and
    zdir, adir (directories), in a locale that puts adir before zdir and
    A.txt before b.txt, the names come out as adir, zdir, A.txt, b.txt.  The
    result is a function of the enumeration, and it does not depend on the
    order of enumeration when no two distinct children are tied. *)
Theorem listDirectoryEntryItems_sorted handle (w : World H) items :
  consistentComparator (localeCompare ops) ->
  outcomeOf (listDirectoryEntryItems ops handle w) = Ok items ->
  (exists dirs files,
     items = dirs ++ files /\
     Forall (fun item => kind item = KDirectory) dirs /\
     Forall (fun item => kind item = KFile) files /\
     StronglySorted (byName ops) dirs /\
     StronglySorted (byName ops) files) /\
  (exists enumerated,
     outcomeOf (enumerate ops handle w) = Ok enumerated /\
     Permutation items enumerated) /\
  (Permutation (map keys items)
     [("b.txt", KFile); ("A.txt", KFile);
      ("zdir", KDirectory); ("adir", KDirectory)] ->
   (localeCompare ops "adir" "zdir" < 0)%Z ->
   (localeCompare ops "A.txt" "b.txt" < 0)%Z ->
   map name items = ["adir"; "zdir"; "A.txt"; "b.txt"]) /\
  (forall (w' : World H) items',
     outcomeOf (listDirectoryEntryItems ops handle w') = Ok items' ->
     (outcomeOf (enumerate ops handle w') = outcomeOf (enumerate ops handle w) ->
      items' = items) /\
     (Permutation items' items ->
      (forall a b, In a items -> In b items ->
                   compareEntryItems ops a b = 0%Z -> a = b) ->
      items' = items)).
Proof.
  intros Hlc Hrun.
  pose proof (compareEntryItems_consistent Hlc) as Hcmp.
  destruct (listing_result handle w items Hrun) as (enumerated & Henum & ->).
  pose proof (arraySort_sorted _ Hcmp enumerated) as Hsorted.
  split; [now apply sorted_directories_first|].
  split; [exists enumerated; split; [exact Henum|apply arraySort_perm]|].
  split; [|].
  - intros Hperm Hdirs Hfiles.
    set (target := [("adir", KDirectory); ("zdir", KDirectory);
                    ("A.txt", KFile); ("b.txt", KFile)]).
    assert (Hanti := proj1 Hlc).
    pose proof (Hanti "adir" "zdir") as Hzd.
    pose proof (Hanti "A.txt" "b.txt") as Hbt.
    assert (Heq : target = map keys (arraySort (compareEntryItems ops) enumerated)).
    { apply (sorted_unique (notAfter (compareKeys (localeCompare ops)))).
      - intros a b Ha Hb. unfold notAfter, compareKeys.
        cbn in Ha, Hb.
        destruct Ha as [<-|[<-|[<-|[<-|[]]]]];
          destruct Hb as [<-|[<-|[<-|[<-|[]]]]]; cbn;
          repeat (destruct (decide _); try congruence);
          try reflexivity; lia.
      - rewrite Hperm. apply (Permutation_rev target).
      - unfold target, notAfter, compareKeys.
        repeat (constructor; cbn);
          repeat (destruct (decide _); try congruence); lia.
      - apply StronglySorted_map. exact Hsorted. }
    change (map name ?l) with (map (fun item => fst (keys item)) l).
    rewrite <- (List.map_map keys fst), <- Heq. reflexivity.
  - intros w' items' Hrun'.
    destruct (listing_result handle w' items' Hrun') as (enumerated' & Henum' & ->).
    split.
    + intros Hsame. rewrite Henum, Henum' in Hsame. now injection Hsame as ->.
    + intros Hperm Hties.
      pose proof (arraySort_sorted _ Hcmp enumerated') as Hsorted'.
      symmetry.
      apply (sorted_unique (notAfter (compareEntryItems ops)));
        [|now symmetry|exact Hsorted|exact Hsorted'].
      intros a b Ha Hb Hab Hba. apply Hties; [exact Ha|exact Hb|].
      unfold notAfter in *. pose proof (proj1 Hcmp a b). lia.
Qed.

End WithHost.

(** Comparison by code units is a consistent comparator. *)
Lemma codeUnitCompare_consistent : consistentComparator codeUnitCompare.
Proof.
  assert (Hirr : forall a, ~ String_as_OT.lt a a).
  { intros a. apply (StrictOrder_Irreflexive a). }
  assert (Htr : forall a b c, String_as_OT.lt a b -> String_as_OT.lt b c ->
                              String_as_OT.lt a c).
  { intros a b c. apply (StrictOrder_Transitive a b c). }
  split.
  - intros a b. unfold codeUnitCompare.
    destruct (String_as_OT.compare_spec a b) as [Heq'|Hab|Hab];
      destruct (String_as_OT.compare_spec b a) as [Heq|Hba|Hba];
      try reflexivity; exfalso; unfold String_as_OT.eq in *; subst;
      solve [eapply Hirr; eauto | eapply Hirr; eapply Htr; eauto].
  - intros a b c. unfold codeUnitCompare.
    destruct (String_as_OT.compare_spec a b) as [Heq1|Hab|Hab];
      destruct (String_as_OT.compare_spec b c) as [Heq2|Hbc|Hbc];
      destruct (String_as_OT.compare_spec a c) as [Heq|Hac|Hac];
      try lia; intros _ _; exfalso; unfold String_as_OT.eq in *; subst;
      solve [eapply Hirr; eauto | eapply Hirr; eapply Htr; eauto
            | eapply Hirr; eapply Htr; [|eapply Htr]; eauto].
Qed.

(** The sorting example on the scripted host. *)
Lemma listing_sample_order :
  exists items,
    outcomeOf (listDirectoryEntryItems (scriptedOps sampleDirectory) docs
                 (startWorld (browsing []))) = Ok items /\
    map name items = ["adir"; "zdir"; "A.txt"; "b.txt"].
Proof.
  eexists. split; [vm_compute; reflexivity|].
  eapply (listDirectoryEntryItems_sorted (scriptedOps sampleDirectory) docs
            (startWorld (browsing []))).
  - exact codeUnitCompare_consistent.
  - vm_compute. reflexivity.
  - cbn. apply (Permutation_rev
                  [("adir", KDirectory); ("zdir", KDirectory);
                   ("A.txt", KFile); ("b.txt", KFile)]).
  - vm_compute. reflexivity.
  - vm_compute. reflexivity.
Defined.

End Listing.

(** ** Host-only computations *)

Module Frames.

Ltac events_norm :=
  repeat rewrite app_nil_r; repeat rewrite <- app_assoc; cbn [app].

Section WithHost.
Context {H : Type} (ops : HostOps H).

Lemma hostOnly_ret {A} (a : A) : hostOnly (ret (H := H) a).
Proof. intros [hst i s]. reflexivity. Qed.

Lemma hostOnly_hostCall {A} c (op : H -> Outcome A * H) :
  hostOnly (hostCall c op).
Proof.
  intros [hst i s]. unfold onHost, hostCall. cbn.
  destruct (op hst) as [r h']. reflexivity.
Qed.

Lemma hostOnly_consoleError label e : hostOnly (consoleError (H := H) label e).
Proof. intros [hst i s]. reflexivity. Qed.

Lemma hostOnly_bind {A B} (m : M H A) (k : A -> M H B) :
  hostOnly m -> (forall a, hostOnly (k a)) -> hostOnly (bind m k).
Proof.
  intros Hm Hk [hst i s]. unfold onHost, bind.
  rewrite (Hm (mkWorld hst i s)). unfold onHost. cbn [host idb session].
  destruct (m (mkWorld hst ∅ initialSession)) as [[[a|e] w1] ev1]; run_simpl;
    [|reflexivity].
  rewrite (Hk a (mkWorld (host w1) i s)), (Hk a w1).
  unfold onHost. cbn [host idb session].
  destruct (k a (mkWorld (host w1) ∅ initialSession)) as [[r w2] ev2].
  reflexivity.
Qed.

Lemma hostOnly_tryCatch {A} (m : M H A) (k : HostError -> M H A) :
  hostOnly m -> (forall e, hostOnly (k e)) -> hostOnly (tryCatch m k).
Proof.
  intros Hm Hk [hst i s]. unfold onHost, tryCatch.
  rewrite (Hm (mkWorld hst i s)). unfold onHost. cbn [host idb session].
  destruct (m (mkWorld hst ∅ initialSession)) as [[[a|e] w1] ev1]; run_simpl;
    [reflexivity|].
  rewrite (Hk e (mkWorld (host w1) i s)), (Hk e w1).
  unfold onHost. cbn [host idb session].
  destruct (k e (mkWorld (host w1) ∅ initialSession)) as [[r w2] ev2].
  reflexivity.
Qed.

Lemma hostOnly_gate handle mode :
  hostOnly (requestDirectoryPermission ops handle mode).
Proof.
  unfold requestDirectoryPermission.
  apply hostOnly_tryCatch.
  - apply hostOnly_bind; [apply hostOnly_hostCall|]. intros p.
    destruct (decide (p = Granted)); [apply hostOnly_ret|].
    destruct (decide (p = Prompt)); [|apply hostOnly_ret].
    apply hostOnly_bind; [apply hostOnly_hostCall|]. intros q.
    apply hostOnly_ret.
  - intros e. apply hostOnly_bind; [apply hostOnly_consoleError|].
    intros _. apply hostOnly_ret.
Qed.

Lemma hostOnly_entryItemOf entry : hostOnly (entryItemOf ops entry).
Proof.
  unfold entryItemOf. destruct (decide (handleKind entry = KFile)).
  - apply hostOnly_bind; [apply hostOnly_hostCall|]. intros f.
    apply hostOnly_ret.
  - apply hostOnly_ret.
Qed.

Lemma hostOnly_collect entries : hostOnly (collectEntryItems ops entries).
Proof.
  induction entries as [|entry rest IH]; cbn [collectEntryItems].
  - apply hostOnly_ret.
  - apply hostOnly_bind; [apply hostOnly_entryItemOf|]. intros item.
    apply hostOnly_bind; [exact IH|]. intros items. apply hostOnly_ret.
Qed.

Lemma hostOnly_listing handle : hostOnly (listDirectoryEntryItems ops handle).
Proof.
  unfold listDirectoryEntryItems.
  apply hostOnly_bind; [apply hostOnly_hostCall|]. intros entries.
  apply hostOnly_bind; [apply hostOnly_collect|]. intros items.
  apply hostOnly_ret.
Qed.

(** The gate on a host resolves to a boolean. *)
Lemma gateOn_total handle hst :
  exists b, outcomeOf (gateOn ops handle hst) = Ok b.
Proof. apply Gate.requestDirectoryPermission_total. Qed.

End WithHost.

End Frames.
Export Frames.

(** ** The navigation stack *)

Module Navigation.

Section WithHost.
Context {H : Type} (ops : HostOps H).

(** What [enterSubDirectory] does to the page, whatever the listing does. *)
Lemma enterSubDirectory_run item (w : World H) :
  kind item = KDirectory ->
  let l := listOn ops (handle item) (host w) in
  let pushed :=
    setCurrentPathDirectories
      (currentPathDirectories (session w) ++ [mkFrame (name item) (handle item)])
      (session w) in
  enterSubDirectory ops item w =
  match outcomeOf l with
  | Ok items =>
      (Ok tt, mkWorld (host (worldOf l)) (idb w) (setFileList items pushed),
       eventsOf l)
  | Thrown e =>
      (Thrown e, mkWorld (host (worldOf l)) (idb w) pushed, eventsOf l)
  end.
Proof.
  intros Hk. cbv zeta. unfold enterSubDirectory.
  destruct (decide (kind item = KDirectory)) as [_|Hno]; [|contradiction].
  unfold bind, modifySession. run_simpl.
  rewrite (hostOnly_listing ops (handle item)). run_simpl.
  unfold listOn.
  destruct (onHost (listDirectoryEntryItems ops (handle item)) (host w))
    as [[[items|e] w1] ev1]; run_simpl; [|reflexivity].
  now rewrite app_nil_r.
Qed.

(** X1.  [enterSubDirectory] ignores a file item altogether.  For a
    directory item it pushes one frame (the item's name and handle) on top
    of the stack before listing it, keeps the view, and shows the listing
    when it arrives; when the listing throws, the error leaves the function
    with the frame already pushed and the old snapshot still displayed. *)
Theorem enterSubDirectory_descends item (w : World H) :
  let r := enterSubDirectory ops item w in
  let l := listOn ops (handle item) (host w) in
  (kind item = KFile -> r = (Ok tt, w, [])) /\
  (kind item = KDirectory ->
   currentPathDirectories (session (worldOf r)) =
     currentPathDirectories (session w) ++ [mkFrame (name item) (handle item)] /\
   currentView (session (worldOf r)) = currentView (session w) /\
   eventsOf r = eventsOf l /\
   match outcomeOf l with
   | Ok items => outcomeOf r = Ok tt /\ fileList (session (worldOf r)) = items
   | Thrown e =>
       outcomeOf r = Thrown e /\
       fileList (session (worldOf r)) = fileList (session w)
   end).
Proof.
  cbv zeta. split.
  - intros Hk. unfold enterSubDirectory.
    destruct (decide (kind item = KDirectory)); [congruence|reflexivity].
  - intros Hk. rewrite (enterSubDirectory_run item w Hk).
    destruct (outcomeOf (listOn ops (handle item) (host w))); cbn; auto.
Qed.

(** What [goBack] does with two frames or more. *)
Lemma goBack_run frames parent child (w : World H) :
  currentPathDirectories (session w) = frames ++ [parent; child] ->
  let l := listOn ops (frameHandle parent) (host w) in
  let popped := setCurrentPathDirectories (frames ++ [parent]) (session w) in
  goBack ops w =
  match outcomeOf l with
  | Ok items =>
      (Ok tt, mkWorld (host (worldOf l)) (idb w) (setFileList items popped),
       eventsOf l)
  | Thrown e =>
      (Thrown e, mkWorld (host (worldOf l)) (idb w) popped, eventsOf l)
  end.
Proof.
  intros Hstack. cbv zeta. unfold goBack, bind, getSession, modifySession.
  run_simpl. rewrite Hstack.
  destruct (decide (length (frames ++ [parent; child]) = 1)) as [Hlen|_].
  { rewrite length_app in Hlen. cbn in Hlen. lia. }
  cbn [currentPathDirectories setCurrentPathDirectories].
  rewrite Hstack.
  rewrite removelast_app by discriminate. cbn [removelast].
  rewrite last_snoc.
  rewrite (hostOnly_listing ops (frameHandle parent)). run_simpl.
  unfold listOn.
  destruct (onHost (listDirectoryEntryItems ops (frameHandle parent)) (host w))
    as [[[items|e] w1] ev1]; run_simpl; [|reflexivity].
  now rewrite app_nil_r.
Qed.

(** X2.  [goBack] on a stack of one frame is [goHome]: the view is Home,
    the stack and the snapshot are empty and the host is not called.  On a
    stack of two frames or more it pops exactly the top frame, keeps the
    view and lists the new top; when that listing throws, the error leaves
    the function with the frame already popped.  On an empty stack it
    throws a TypeError without calling the host. *)
Theorem goBack_ascends (w : World H) :
  let r := goBack ops w in
  (length (currentPathDirectories (session w)) = 1 ->
   r = goHome w /\
   eventsOf r = [] /\
   currentView (session (worldOf r)) = ViewHome /\
   currentPathDirectories (session (worldOf r)) = [] /\
   fileList (session (worldOf r)) = []) /\
  (forall frames parent child,
     currentPathDirectories (session w) = frames ++ [parent; child] ->
     let l := listOn ops (frameHandle parent) (host w) in
     currentPathDirectories (session (worldOf r)) = frames ++ [parent] /\
     currentView (session (worldOf r)) = currentView (session w) /\
     eventsOf r = eventsOf l /\
     match outcomeOf l with
     | Ok items => outcomeOf r = Ok tt /\ fileList (session (worldOf r)) = items
     | Thrown e =>
         outcomeOf r = Thrown e /\
         fileList (session (worldOf r)) = fileList (session w)
     end) /\
  (currentPathDirectories (session w) = [] ->
   exists e, r = (Thrown e, w, []) /\ errName e = "TypeError").
Proof.
  cbv zeta. split; [|split].
  - intros Hlen. unfold goBack, bind, getSession. run_simpl.
    destruct (decide (length (currentPathDirectories (session w)) = 1));
      [|contradiction].
    destruct (goHome w) as [[r' w'] ev'] eqn:E. run_simpl.
    unfold goHome, bind, modifySession in E. run_simpl.
    injection E as <- <- <-. repeat split.
  - intros frames parent child Hstack.
    rewrite (goBack_run frames parent child w Hstack).
    destruct (outcomeOf (listOn ops (frameHandle parent) (host w))); cbn; auto.
  - intros Hnil. unfold goBack, bind, getSession, modifySession, throw.
    run_simpl. rewrite Hnil.
    destruct (decide (length (@nil Frame) = 1)) as [Hlen|_]; [discriminate|].
    cbn. rewrite Hnil. cbn.
    exists (mkError "TypeError"
              "Cannot read properties of undefined (reading 'values')").
    split; [|reflexivity].
    destruct w as [hst i s]. cbn in *. repeat f_equal.
    destruct s; cbn in *. now subst.
Qed.

(** X3.  Descending into a directory item and going back restores the
    navigation stack, whether or not the two listings succeed; with a
    non-empty stack to start from the view is kept as well. *)
Theorem descend_then_ascend item (w : World H) :
  kind item = KDirectory ->
  let w1 := worldOf (enterSubDirectory ops item w) in
  let w2 := worldOf (goBack ops w1) in
  currentPathDirectories (session w2) = currentPathDirectories (session w) /\
  (currentPathDirectories (session w) <> [] ->
   currentView (session w2) = currentView (session w)).
Proof.
  intros Hk. cbv zeta.
  assert (Hw1 : currentPathDirectories
                  (session (worldOf (enterSubDirectory ops item w))) =
                currentPathDirectories (session w)
                  ++ [mkFrame (name item) (handle item)] /\
                currentView (session (worldOf (enterSubDirectory ops item w))) =
                currentView (session w)).
  { rewrite (enterSubDirectory_run item w Hk).
    destruct (outcomeOf (listOn ops (handle item) (host w))); cbn; auto. }
  destruct Hw1 as [Hstack1 Hview1].
  set (w1 := worldOf (enterSubDirectory ops item w)) in *.
  destruct (currentPathDirectories (session w)) as [|f fs] eqn:Estack
    using rev_ind.
  - split; [|congruence]. cbn in Hstack1.
    unfold goBack, bind, getSession. run_simpl. rewrite Hstack1.
    destruct (decide (length [mkFrame (name item) (handle item)] = 1));
      [|cbn in *; congruence].
    unfold goHome, bind, modifySession. run_simpl. reflexivity.
  - clear IHfs. rewrite <- app_assoc in Hstack1. cbn in Hstack1.
    rewrite (goBack_run _ _ _ w1 Hstack1).
    destruct (outcomeOf (listOn ops (frameHandle f) (host w1))); cbn;
      split; auto.
Qed.

(** X4.  [goHome] resets the view to Home and empties the stack and the
    snapshot without calling the host, keeping the registry and the Handle
    Store; a mutation attempted right after it is refused with its
    "no target directory" notification and nothing else happens. *)
Theorem goHome_then_mutation (m : Mutation) (w : World H) :
  let w1 := worldOf (goHome w) in
  goHome w =
    (Ok tt,
     mkWorld (host w) (idb w)
       (setFileList [] (setCurrentPathDirectories []
                          (setCurrentView ViewHome (session w)))), []) /\
  storedDirectories (session w1) = storedDirectories (session w) /\
  currentPath (session w1) = "" /\
  runMutation ops m w1 = (Ok tt, w1, [EvToast (toastNoTarget m)]).
Proof.
  cbv zeta. unfold goHome, bind, modifySession. run_simpl.
  repeat split.
  destruct m; cbn [runMutation];
    unfold handleFileUpload, deleteItem, createNewFolder, bind, getSession;
    run_simpl; reflexivity.
Qed.

End WithHost.

(** Into [Drafts] and back to [Docs]. *)
Lemma descend_then_ascend_drafts :
  currentPathDirectories
    (session (worldOf (goBack (scriptedOps calm)
                         (worldOf (enterSubDirectory (scriptedOps calm) draftsItem
                                     (startWorld (browsing [draftsItem])))))))
  = [mkFrame "Docs" docs].
Proof.
  destruct (descend_then_ascend (scriptedOps calm) draftsItem
              (startWorld (browsing [draftsItem]))) as [Hstack _].
  - reflexivity.
  - rewrite Hstack. reflexivity.
Defined.

End Navigation.

(** ** Entering an authorised directory *)

Module Entering.

Section WithHost.
Context {H : Type} (ops : HostOps H).

(** A listing only reads: every event is an enumeration or a file opened. *)
Lemma collect_reads entries : forall w : World H,
  forallb isRead (eventsOf (collectEntryItems ops entries w)) = true.
Proof.
  induction entries as [|entry rest IH]; intros w; [reflexivity|].
  cbn [collectEntryItems]. rewrite bind_events, forallb_app.
  apply andb_true_intro. split.
  - unfold entryItemOf.
    destruct (decide (handleKind entry = KFile)) as [_|_]; [|reflexivity].
    unfold bind, hostCall.
    destruct (getFile ops entry (host w)) as [[f|err] h1]; reflexivity.
  - destruct (outcomeOf (entryItemOf ops entry w)); [|reflexivity].
    rewrite bind_events, forallb_app, IH. cbn.
    now destruct (outcomeOf (collectEntryItems ops rest _)).
Qed.

Lemma listing_reads handle (w : World H) :
  forallb isRead (eventsOf (listDirectoryEntryItems ops handle w)) = true.
Proof.
  unfold listDirectoryEntryItems. rewrite bind_events, forallb_app.
  apply andb_true_intro. split.
  - unfold hostCall. destruct (values ops handle (host w)); reflexivity.
  - destruct (outcomeOf (hostCall _ _ w)); [|reflexivity].
    rewrite bind_events, forallb_app, collect_reads. cbn.
    now destruct (outcomeOf (collectEntryItems ops _ _)).
Qed.

Lemma reads_quiet evs :
  forallb isRead evs = true ->
  toasts evs = [] /\ List.filter isMutation evs = [] /\ removals evs = [] /\
  creations evs = [].
Proof.
  induction evs as [|e l IH]; [repeat split|].
  cbn [forallb]. intros Hall. apply andb_prop in Hall as [He Hl].
  destruct (IH Hl) as (IH1 & IH2 & IH3 & IH4).
  destruct e as [[] ?| | |]; try discriminate He; cbn; repeat split; assumption.
Qed.

Lemma listOn_quiet handle hst :
  let evs := eventsOf (listOn ops handle hst) in
  toasts evs = [] /\ List.filter isMutation evs = [] /\ removals evs = [] /\
  creations evs = [].
Proof. apply reads_quiet, listing_reads. Qed.

Lemma gateOn_quiet handle hst :
  let evs := eventsOf (gateOn ops handle hst) in
  toasts evs = [] /\ List.filter isMutation evs = [] /\ removals evs = [] /\
  creations evs = [].
Proof.
  cbv zeta. unfold gateOn, onHost.
  pose proof (Gate.requestDirectoryPermission_frame ops handle ModeReadWrite
                (mkWorld hst ∅ initialSession)) as (_ & _ & Hev).
  cbv zeta in Hev.
  induction (eventsOf (requestDirectoryPermission ops handle ModeReadWrite
                         (mkWorld hst ∅ initialSession))) as [|e l IH].
  - repeat split.
  - apply Forall_cons in Hev as [He Hl].
    destruct (IH Hl) as (IH1 & IH2 & IH3 & IH4).
    destruct e as [[] ?| | |]; try discriminate He; cbn; repeat split;
      assumption.
Qed.

(** What [enterDirectory] does once the stored handle passes the gate. *)
Lemma enterDirectory_run directoryData h (w : World H) :
  idb w !! id directoryData = Some h ->
  outcomeOf (gateOn ops h (host w)) = Ok true ->
  let g := gateOn ops h (host w) in
  let l := listOn ops h (host (worldOf g)) in
  let entered :=
    setCurrentView ViewDirectory
      (setCurrentPathDirectories
         (currentPathDirectories (session w)
            ++ [mkFrame (infoName directoryData) h])
         (setLoading true (session w))) in
  enterDirectory ops directoryData w =
  match outcomeOf l with
  | Ok items =>
      (Ok tt,
       mkWorld (host (worldOf l)) (idb w)
               (setLoading false (setFileList items entered)),
       eventsOf g ++ eventsOf l)
  | Thrown e =>
      (Ok tt,
       mkWorld (host (worldOf l)) (idb w) (setLoading false entered),
       eventsOf g ++ eventsOf l
         ++ [EvConsole "进入目录失败:" e; EvToast toastEnterFailed])
  end.
Proof.
  intros Hget Hgrant. cbv zeta. unfold enterDirectory.
  unfold tryFinally, tryCatch, bind, modifySession, getDirectoryHandle, idbGet,
    toastAdd, consoleError, emit, ret.
  run_simpl. rewrite Hget.
  rewrite (hostOnly_gate ops h ModeReadWrite). run_simpl.
  unfold gateOn in *.
  destruct (onHost (requestDirectoryPermission ops h ModeReadWrite) (host w))
    as [[rg wg] evg]. run_simpl. subst rg. run_simpl.
  rewrite (hostOnly_listing ops h). run_simpl. unfold listOn.
  destruct (onHost (listDirectoryEntryItems ops h) (host wg))
    as [[[items|err] wl] evl]; run_simpl; cbn; events_norm; reflexivity.
Qed.

(** X5.  Entering a record whose stored handle passes the Permission Gate
    pushes one frame (the record's name, the stored handle) on the stack,
    switches the view to the directory and shows the sorted listing of the
    handle; the registry and the Handle Store are kept, no notification is
    emitted and the loading flag ends cleared. *)
Theorem enterDirectory_enters directoryData h items (w : World H) :
  idb w !! id directoryData = Some h ->
  outcomeOf (gateOn ops h (host w)) = Ok true ->
  outcomeOf (listOn ops h (host (worldOf (gateOn ops h (host w))))) = Ok items ->
  let r := enterDirectory ops directoryData w in
  outcomeOf r = Ok tt /\
  currentPathDirectories (session (worldOf r)) =
    currentPathDirectories (session w) ++ [mkFrame (infoName directoryData) h] /\
  currentView (session (worldOf r)) = ViewDirectory /\
  fileList (session (worldOf r)) = items /\
  loading (session (worldOf r)) = false /\
  storedDirectories (session (worldOf r)) = storedDirectories (session w) /\
  idb (worldOf r) = idb w /\
  toasts (eventsOf r) = [].
Proof.
  intros Hget Hgrant Hlist. cbv zeta.
  rewrite (enterDirectory_run directoryData h w Hget Hgrant), Hlist. cbn.
  repeat split.
  rewrite toasts_app.
  rewrite (proj1 (gateOn_quiet h (host w))).
  exact (proj1 (listOn_quiet h _)).
Qed.

(** X6.  When the listing throws after the gate has granted, the frame is
    already pushed and the view already switched: [enterDirectory] catches
    the error, emits the "cannot enter" notification, keeps the record in
    the registry and its handle in the store, and leaves the old snapshot
    displayed under the new top of the stack. *)
Theorem enterDirectory_listing_fails directoryData h e (w : World H) :
  idb w !! id directoryData = Some h ->
  outcomeOf (gateOn ops h (host w)) = Ok true ->
  outcomeOf (listOn ops h (host (worldOf (gateOn ops h (host w))))) = Thrown e ->
  let r := enterDirectory ops directoryData w in
  outcomeOf r = Ok tt /\
  toasts (eventsOf r) = [toastEnterFailed] /\
  currentPathDirectories (session (worldOf r)) =
    currentPathDirectories (session w) ++ [mkFrame (infoName directoryData) h] /\
  currentView (session (worldOf r)) = ViewDirectory /\
  fileList (session (worldOf r)) = fileList (session w) /\
  loading (session (worldOf r)) = false /\
  storedDirectories (session (worldOf r)) = storedDirectories (session w) /\
  idb (worldOf r) = idb w.
Proof.
  intros Hget Hgrant Hlist. cbv zeta.
  rewrite (enterDirectory_run directoryData h w Hget Hgrant), Hlist. cbn.
  repeat split.
  rewrite !toasts_app.
  rewrite (proj1 (gateOn_quiet h (host w))), (proj1 (listOn_quiet h _)).
  reflexivity.
Qed.

End WithHost.

(** [Docs] is stored and readable: entering it from Home opens it. *)
Lemma enterDirectory_enters_docs :
  currentPath (session (worldOf (enterDirectory (scriptedOps calm) docsRecord
                                   homeStored))) = "Docs" /\
  currentView (session (worldOf (enterDirectory (scriptedOps calm) docsRecord
                                   homeStored))) = ViewDirectory.
Proof.
  destruct (enterDirectory_enters (scriptedOps calm) docsRecord docs []
              homeStored)
    as (_ & Hstack & Hview & _).
  - reflexivity.
  - reflexivity.
  - reflexivity.
  - split; [|exact Hview]. unfold currentPath. rewrite Hstack. reflexivity.
Defined.

(** [Docs] is stored but its children cannot be enumerated. *)
Lemma enterDirectory_unreadable_docs :
  toasts (eventsOf (enterDirectory (scriptedOps unreadable) docsRecord
                      homeStored)) = [toastEnterFailed] /\
  currentView (session (worldOf (enterDirectory (scriptedOps unreadable)
                                   docsRecord homeStored))) = ViewDirectory.
Proof.
  destruct (enterDirectory_listing_fails (scriptedOps unreadable) docsRecord
              docs notAllowed homeStored)
    as (_ & Htoast & _ & Hview & _).
  - reflexivity.
  - reflexivity.
  - reflexivity.
  - split; assumption.
Defined.

End Entering.

(** ** Adding a directory *)

Module Adding.

Section WithHost.
Context {H : Type} (ops : HostOps H).

Lemma findSameEntry_step handle directoryInfo rest (w : World H) :
  findSameEntry ops handle (directoryInfo :: rest) w =
  match idb w !! id directoryInfo with
  | None => findSameEntry ops handle rest w
  | Some h =>
      match hostIsSameEntry ops handle h (host w) with
      | (Ok true, h') =>
          (Ok true, mkWorld h' (idb w) (session w),
           [EvHost (CIsSameEntry handle h) true])
      | (Ok false, h') =>
          match findSameEntry ops handle rest (mkWorld h' (idb w) (session w)) with
          | (r, w2, ev2) => (r, w2, EvHost (CIsSameEntry handle h) true :: ev2)
          end
      | (Thrown e, h') =>
          (Thrown e, mkWorld h' (idb w) (session w),
           [EvHost (CIsSameEntry handle h) false])
      end
  end.
Proof.
  cbn [findSameEntry].
  unfold bind, getDirectoryHandle, idbGet, isSameEntry, hostCall. run_simpl.
  destruct (idb w !! id directoryInfo) as [h|]; cbn.
  - unfold bind.
    destruct (hostIsSameEntry ops handle h (host w)) as [[[|]|e] h']; cbn;
      try reflexivity.
    destruct (findSameEntry ops handle rest _) as [[r w2] ev2]. reflexivity.
  - destruct (findSameEntry ops handle rest w) as [[r w2] ev2]. reflexivity.
Qed.

(** The search reads the store and talks to the host; it changes neither
    the store nor the page, and does not look at the page. *)
Lemma findSameEntry_frame handle infos : forall w : World H,
  findSameEntry ops handle infos w =
  (outcomeOf (searchOn ops handle infos (idb w) (host w)),
   mkWorld (host (worldOf (searchOn ops handle infos (idb w) (host w))))
           (idb w) (session w),
   eventsOf (searchOn ops handle infos (idb w) (host w))).
Proof.
  unfold searchOn.
  induction infos as [|info rest IH]; intros w.
  - destruct w. reflexivity.
  - rewrite !findSameEntry_step. cbn [idb host session].
    destruct (idb w !! id info) as [h|]; [|apply IH].
    destruct (hostIsSameEntry ops handle h (host w)) as [[[|]|e] h'];
      try reflexivity.
    rewrite (IH (mkWorld h' (idb w) (session w))).
    rewrite (IH (mkWorld h' (idb w) initialSession)). reflexivity.
Qed.

(** A record without a stored handle is passed over. *)
Lemma findSameEntry_skip handle info rest (w : World H) :
  idb w !! id info = None ->
  findSameEntry ops handle (info :: rest) w = findSameEntry ops handle rest w.
Proof. intros Hget. rewrite findSameEntry_step, Hget. reflexivity. Qed.

(** After a comparison answered [false] the search goes on from the host
    state the comparison left. *)
Lemma findSameEntry_past handle info rest (w : World H) h h' :
  idb w !! id info = Some h ->
  hostIsSameEntry ops handle h (host w) = (Ok false, h') ->
  let next := findSameEntry ops handle rest (mkWorld h' (idb w) (session w)) in
  outcomeOf (findSameEntry ops handle (info :: rest) w) = outcomeOf next /\
  worldOf (findSameEntry ops handle (info :: rest) w) = worldOf next.
Proof.
  intros Hget Hcmp. cbv zeta. rewrite findSameEntry_step, Hget, Hcmp.
  destruct (findSameEntry ops handle rest _) as [[r w2] ev2]. split; reflexivity.
Qed.

(** X7.  The duplicate search of [addNewDirectory] compares the picked
    handle with the stored handles of the registry in order, skipping
    without a host call the records whose handle is missing from the store.
    It answers [false] only after the host has answered [false] for every
    stored handle, answers [true] at the first stored handle for which the
    host answers [true], and throws the error of the first comparison that
    throws; in the last two cases the host answered [false] for every
    stored handle before that one and the records after it are not
    examined.  It changes neither the store nor the page. *)
Theorem findSameEntry_search handle infos : forall w : World H,
  let r := findSameEntry ops handle infos w in
  let upTo before := findSameEntry ops handle before w in
  idb (worldOf r) = idb w /\
  session (worldOf r) = session w /\
  length (eventsOf r) = length (comparisons (eventsOf r)) /\
  match outcomeOf r with
  | Ok false =>
      comparisons (eventsOf r) = storedHandles (idb w) infos /\
      allHostOk (eventsOf r) = true /\
      forall before info after h,
        infos = before ++ info :: after ->
        idb w !! id info = Some h ->
        outcomeOf (upTo before) = Ok false /\
        fst (hostIsSameEntry ops handle h (host (worldOf (upTo before))))
        = Ok false
  | Ok true =>
      exists before info after h,
        infos = before ++ info :: after /\
        idb w !! id info = Some h /\
        comparisons (eventsOf r) = storedHandles (idb w) before ++ [h] /\
        last (eventsOf r) = Some (EvHost (CIsSameEntry handle h) true) /\
        outcomeOf (upTo before) = Ok false /\
        hostIsSameEntry ops handle h (host (worldOf (upTo before)))
        = (Ok true, host (worldOf r))
  | Thrown e =>
      exists before info after h,
        infos = before ++ info :: after /\
        idb w !! id info = Some h /\
        comparisons (eventsOf r) = storedHandles (idb w) before ++ [h] /\
        last (eventsOf r) = Some (EvHost (CIsSameEntry handle h) false) /\
        outcomeOf (upTo before) = Ok false /\
        hostIsSameEntry ops handle h (host (worldOf (upTo before)))
        = (Thrown e, host (worldOf r))
  end.
Proof.
  induction infos as [|info rest IH]; intros w; cbv zeta.
  - cbn. do 5 (split; [reflexivity|]).
    intros [|? ?] ? ? ? Hsplit; discriminate Hsplit.
  - destruct (idb w !! id info) as [h|] eqn:Eh.
    + destruct (hostIsSameEntry ops handle h (host w)) as [[[|]|e] h'] eqn:Ecmp.
      * rewrite findSameEntry_step, Eh, Ecmp. cbn. repeat split.
        exists [], info, rest, h. repeat split; [exact Eh|exact Ecmp].
      * pose proof (findSameEntry_past handle info) as Hpast.
        specialize (IH (mkWorld h' (idb w) (session w))). cbv zeta in IH.
        rewrite findSameEntry_step, Eh, Ecmp.
        destruct (findSameEntry ops handle rest _) as [[r w2] ev2] eqn:Erest.
        run_simpl. destruct IH as (Hi & Hs & Hlen & Hcase).
        split; [exact Hi|]. split; [exact Hs|].
        split; [cbn; now rewrite Hlen|].
        destruct r as [[|]|e].
        -- destruct Hcase
             as (before & info' & after & h0 & -> & Hh0 & Hc & Hl & Hup & Hans).
           exists (info :: before), info', after, h0.
           destruct (Hpast before w h h' Eh Ecmp) as [Hpo Hpw].
           split; [reflexivity|]. split; [exact Hh0|].
           split; [|split; [|split]].
           ++ cbn. unfold storedHandles, comparisons in *. cbn.
              rewrite Eh. cbn. now rewrite Hc.
           ++ rewrite last_cons, Hl. reflexivity.
           ++ now rewrite Hpo.
           ++ now rewrite Hpw.
        -- destruct Hcase as (Hc & Hok & Hall).
           split; [|split].
           ++ unfold storedHandles, comparisons in *. cbn.
              rewrite Eh. cbn. now rewrite Hc.
           ++ exact Hok.
           ++ intros [|info0 before] info' after h0 Hsplit Hh0.
              ** injection Hsplit as <- <-. cbn.
                 assert (h0 = h) as -> by congruence.
                 now rewrite Ecmp.
              ** injection Hsplit as <- ->.
                 destruct (Hpast before w h h' Eh Ecmp) as [Hpo Hpw].
                 rewrite Hpo, Hpw. now apply (Hall before info' after h0).
        -- destruct Hcase
             as (before & info' & after & h0 & -> & Hh0 & Hc & Hl & Hup & Hans).
           exists (info :: before), info', after, h0.
           destruct (Hpast before w h h' Eh Ecmp) as [Hpo Hpw].
           split; [reflexivity|]. split; [exact Hh0|].
           split; [|split; [|split]].
           ++ cbn. unfold storedHandles, comparisons in *. cbn.
              rewrite Eh. cbn. now rewrite Hc.
           ++ rewrite last_cons, Hl. reflexivity.
           ++ now rewrite Hpo.
           ++ now rewrite Hpw.
      * rewrite findSameEntry_step, Eh, Ecmp. cbn. repeat split.
        exists [], info, rest, h. repeat split; [exact Eh|exact Ecmp].
    + pose proof (fun l => findSameEntry_skip handle info l w Eh) as Hskip.
      rewrite Hskip. specialize (IH w). cbv zeta in IH.
      destruct IH as (Hi & Hs & Hlen & Hcase).
      split; [exact Hi|]. split; [exact Hs|]. split; [exact Hlen|].
      destruct (outcomeOf (findSameEntry ops handle rest w)) as [[|]|e].
      * destruct Hcase
          as (before & info' & after & h0 & -> & Hh0 & Hc & Hl & Hup & Hans).
        exists (info :: before), info', after, h0.
        split; [reflexivity|]. split; [exact Hh0|].
        split; [|split; [exact Hl|]].
        -- unfold storedHandles in *. cbn. rewrite Eh. exact Hc.
        -- rewrite Hskip. split; [exact Hup|exact Hans].
      * destruct Hcase as (Hc & Hok & Hall).
        split; [|split; [exact Hok|]].
        -- unfold storedHandles in *. cbn. rewrite Eh. exact Hc.
        -- intros [|info0 before] info' after h0 Hsplit Hh0.
           ++ injection Hsplit as <- <-. congruence.
           ++ injection Hsplit as <- ->. rewrite Hskip.
              now apply (Hall before info' after h0).
      * destruct Hcase
          as (before & info' & after & h0 & -> & Hh0 & Hc & Hl & Hup & Hans).
        exists (info :: before), info', after, h0.
        split; [reflexivity|]. split; [exact Hh0|].
        split; [|split; [exact Hl|]].
        -- unfold storedHandles in *. cbn. rewrite Eh. exact Hc.
        -- rewrite Hskip. split; [exact Hup|exact Hans].
Qed.

Lemma findSameEntry_toasts handle infos : forall w : World H,
  toasts (eventsOf (findSameEntry ops handle infos w)) = [].
Proof.
  induction infos as [|info rest IH]; intros w; [reflexivity|].
  rewrite findSameEntry_step.
  destruct (idb w !! id info) as [h|]; [|apply IH].
  destruct (hostIsSameEntry ops handle h (host w)) as [[[|]|e] h'];
    try reflexivity.
  specialize (IH (mkWorld h' (idb w) (session w))).
  destruct (findSameEntry ops handle rest _) as [[r w2] ev2]. exact IH.
Qed.

(** What [addNewDirectory] does, by what the picker and the search say. *)
Lemma addNewDirectory_run (w : World H) :
  let reset := setLoading false (setLoading true (session w)) in
  addNewDirectory ops w =
  match showDirectoryPicker ops (host w) with
  | (Thrown e, h1) =>
      (Ok tt, mkWorld h1 (idb w) reset,
       EvHost CShowDirectoryPicker false
         :: if decide (errName e = "AbortError") then []
            else [EvToast (toastAddFailed e)])
  | (Ok handle, h1) =>
      let search :=
        searchOn ops handle (storedDirectories (session w)) (idb w) h1 in
      match outcomeOf search with
      | Ok true =>
          (Ok tt, mkWorld (host (worldOf search)) (idb w) reset,
           EvHost CShowDirectoryPicker true
             :: eventsOf search ++ [EvToast (toastDuplicate handle)])
      | Ok false =>
          match randomUUID ops (host (worldOf search)) with
          | (handleId, h3) =>
              (Ok tt,
               mkWorld h3 (<[handleId := handle]> (idb w))
                 (setLoading false
                    (setStoredDirectories
                       (storedDirectories (session w)
                          ++ [mkInfo handleId (handleName handle)])
                       (setLoading true (session w)))),
               EvHost CShowDirectoryPicker true
                 :: eventsOf search ++ [EvToast (toastAdded handle)])
          end
      | Thrown e =>
          (Ok tt, mkWorld (host (worldOf search)) (idb w) reset,
           EvHost CShowDirectoryPicker true
             :: eventsOf search
                  ++ if decide (errName e = "AbortError") then []
                     else [EvToast (toastAddFailed e)])
      end
  end.
Proof.
  cbv zeta. unfold addNewDirectory.
  unfold tryFinally, tryCatch, bind, modifySession, getSession, hostCall,
    saveDirectoryHandle, idbSet, toastAdd, emit, ret.
  run_simpl.
  destruct (showDirectoryPicker ops (host w)) as [[handle|e] h1]; run_simpl.
  2:{ destruct (decide (errName e = "AbortError")); reflexivity. }
  cbn [storedDirectories setLoading].
  rewrite findSameEntry_frame. run_simpl.
  destruct (searchOn ops handle (storedDirectories (session w)) (idb w) h1)
    as [[[[|]|e] ws] evs]; run_simpl.
  - cbn. events_norm. reflexivity.
  - unfold bind. run_simpl.
    destruct (randomUUID ops (host ws)) as [u h3]. cbn. events_norm.
    reflexivity.
  - destruct (decide (errName e = "AbortError")); cbn; events_norm; reflexivity.
Qed.

(** X8.  When the picker returns a handle that the search tells apart from
    every stored handle, [addNewDirectory] stores the handle under the
    identifier that [crypto.randomUUID] returns, appends one record (that identifier,
    the handle's name) at the end of the registry and emits the success
    notification; the handle can be read back under the identifier, the
    other store entries and the navigation state are kept. *)
Theorem addNewDirectory_adds handle h1 (w : World H) :
  showDirectoryPicker ops (host w) = (Ok handle, h1) ->
  outcomeOf (searchOn ops handle (storedDirectories (session w)) (idb w) h1)
    = Ok false ->
  let r := addNewDirectory ops w in
  let handleId :=
    fst (randomUUID ops
           (host (worldOf (searchOn ops handle (storedDirectories (session w))
                             (idb w) h1)))) in
  outcomeOf r = Ok tt /\
  storedDirectories (session (worldOf r)) =
    storedDirectories (session w) ++ [mkInfo handleId (handleName handle)] /\
  idb (worldOf r) = (<[handleId := handle]> (idb w)) /\
  outcomeOf (getDirectoryHandle handleId (worldOf r)) = Ok (Some handle) /\
  toasts (eventsOf r) = [toastAdded handle] /\
  loading (session (worldOf r)) = false /\
  currentView (session (worldOf r)) = currentView (session w) /\
  currentPathDirectories (session (worldOf r)) =
    currentPathDirectories (session w).
Proof.
  intros Hpick Hsearch. cbv zeta.
  rewrite addNewDirectory_run, Hpick. cbv zeta. rewrite Hsearch.
  pose proof (findSameEntry_toasts handle (storedDirectories (session w))
                (mkWorld h1 (idb w) initialSession)) as Hquiet.
  fold (searchOn ops handle (storedDirectories (session w)) (idb w) h1) in Hquiet.
  destruct (randomUUID ops _) as [u h3]. cbn.
  repeat split.
  - f_equal. apply lookup_insert_eq.
  - change (toasts (?e :: ?l)) with (toasts l).
    rewrite toasts_app, Hquiet. reflexivity.
Qed.

(** X9.  When the search finds the picked handle among the stored ones,
    [addNewDirectory] emits the "already in the list" notification and
    saves nothing: the registry and the Handle Store are unchanged. *)
Theorem addNewDirectory_duplicate handle h1 (w : World H) :
  showDirectoryPicker ops (host w) = (Ok handle, h1) ->
  outcomeOf (searchOn ops handle (storedDirectories (session w)) (idb w) h1)
    = Ok true ->
  let r := addNewDirectory ops w in
  outcomeOf r = Ok tt /\
  storedDirectories (session (worldOf r)) = storedDirectories (session w) /\
  idb (worldOf r) = idb w /\
  toasts (eventsOf r) = [toastDuplicate handle] /\
  loading (session (worldOf r)) = false.
Proof.
  intros Hpick Hsearch. cbv zeta.
  rewrite addNewDirectory_run, Hpick. cbv zeta. rewrite Hsearch.
  pose proof (findSameEntry_toasts handle (storedDirectories (session w))
                (mkWorld h1 (idb w) initialSession)) as Hquiet.
  fold (searchOn ops handle (storedDirectories (session w)) (idb w) h1) in Hquiet.
  cbn. repeat split.
  change (toasts (?e :: ?l)) with (toasts l).
  rewrite toasts_app, Hquiet. reflexivity.
Qed.

(** X10.  When the directory picker throws, nothing is compared or saved
    and the loading flag ends cleared; a dismissed picker ([AbortError]) is
    silent, any other error is reported once with its message. *)
Theorem addNewDirectory_picker_throws e h1 (w : World H) :
  showDirectoryPicker ops (host w) = (Thrown e, h1) ->
  let r := addNewDirectory ops w in
  outcomeOf r = Ok tt /\
  storedDirectories (session (worldOf r)) = storedDirectories (session w) /\
  idb (worldOf r) = idb w /\
  comparisons (eventsOf r) = [] /\
  loading (session (worldOf r)) = false /\
  (errName e = "AbortError" -> toasts (eventsOf r) = []) /\
  (errName e <> "AbortError" -> toasts (eventsOf r) = [toastAddFailed e]).
Proof.
  intros Hpick. cbv zeta. rewrite addNewDirectory_run, Hpick. cbn.
  destruct (decide (errName e = "AbortError")); repeat split;
    intros; congruence.
Qed.

End WithHost.

(** [Photos] is compared with [Docs] and with [Music], and is new. *)
Lemma findSameEntry_photos_new :
  outcomeOf (findSameEntry (scriptedOps calm) photos
               (storedDirectories (session twoRoots)) twoRoots) = Ok false /\
  comparisons (eventsOf (findSameEntry (scriptedOps calm) photos
                           (storedDirectories (session twoRoots)) twoRoots))
  = [docs; music].
Proof.
  pose proof (findSameEntry_search (scriptedOps calm) photos
                (storedDirectories (session twoRoots)) twoRoots)
    as (_ & _ & _ & Hcase).
  assert (Hr : outcomeOf (findSameEntry (scriptedOps calm) photos
                            (storedDirectories (session twoRoots)) twoRoots)
               = Ok false) by (vm_compute; reflexivity).
  rewrite Hr in Hcase. destruct Hcase as (Hc & _).
  split; [exact Hr|]. rewrite Hc. vm_compute. reflexivity.
Defined.

(** [Photos] is picked while [Docs] and [Music] are registered. *)
Lemma addNewDirectory_adds_photos :
  List.map infoName
    (storedDirectories
       (session (worldOf (addNewDirectory (scriptedOps calm) twoRoots))))
  = ["Docs"; "Music"; "Photos"] /\
  toasts (eventsOf (addNewDirectory (scriptedOps calm) twoRoots))
  = [toastAdded photos].
Proof.
  destruct (addNewDirectory_adds (scriptedOps calm) photos 1 twoRoots)
    as (_ & Hreg & _ & _ & Htoast & _).
  - reflexivity.
  - vm_compute. reflexivity.
  - split; [rewrite Hreg; reflexivity|exact Htoast].
Defined.

(** [Docs] is picked again. *)
Lemma addNewDirectory_docs_again :
  storedDirectories
    (session (worldOf (addNewDirectory (scriptedOps pickingDocs) homeStored)))
  = [docsRecord] /\
  toasts (eventsOf (addNewDirectory (scriptedOps pickingDocs) homeStored))
  = [toastDuplicate docs].
Proof.
  destruct (addNewDirectory_duplicate (scriptedOps pickingDocs) docs 1 homeStored)
    as (_ & Hreg & _ & Htoast & _).
  - reflexivity.
  - vm_compute. reflexivity.
  - split; [rewrite Hreg; reflexivity|exact Htoast].
Defined.

(** The user dismisses the picker. *)
Lemma addNewDirectory_dismissed :
  eventsOf (addNewDirectory (scriptedOps pickerDismissed) homeStored)
  = [EvHost CShowDirectoryPicker false] /\
  storedDirectories
    (session (worldOf (addNewDirectory (scriptedOps pickerDismissed) homeStored)))
  = [docsRecord].
Proof.
  destruct (addNewDirectory_picker_throws (scriptedOps pickerDismissed)
              (mkError "AbortError" "The user aborted a request") 1 homeStored)
    as (_ & Hreg & _ & _ & _ & _ & _).
  - reflexivity.
  - split; [vm_compute; reflexivity|rewrite Hreg; reflexivity].
Defined.

End Adding.

(** ** The registry and the Handle Store *)

Module Registry.

Section WithHost.
Context {H : Type} (ops : HostOps H).

(** X11.  [removeDirectory] drops the records with the given identifier
    and the handle stored under it, and nothing else: the other records
    stay in their order, the other handles stay stored, the navigation
    state is kept, the host is not called and nothing is notified.
    Removing the same identifier again changes nothing. *)
Theorem removeDirectory_forgets id' (w : World H) :
  let r := removeDirectory id' w in
  outcomeOf r = Ok tt /\
  eventsOf r = [] /\
  host (worldOf r) = host w /\
  storedDirectories (session (worldOf r)) =
    List.filter (fun dir => negb (bool_decide (id dir = id')))
                (storedDirectories (session w)) /\
  (forall dir, In dir (storedDirectories (session (worldOf r))) <->
               In dir (storedDirectories (session w)) /\ id dir <> id') /\
  idb (worldOf r) !! id' = None /\
  (forall k, k <> id' -> idb (worldOf r) !! k = idb w !! k) /\
  currentView (session (worldOf r)) = currentView (session w) /\
  currentPathDirectories (session (worldOf r)) =
    currentPathDirectories (session w) /\
  removeDirectory id' (worldOf r) = (Ok tt, worldOf r, []).
Proof.
  cbv zeta. unfold removeDirectory, bind, modifySession.
  rewrite Store.removeDirectoryHandle_run. run_simpl.
  rewrite Store.removeDirectoryHandle_run. run_simpl. cbn.
  do 4 (split; [reflexivity|]).
  split; [|split; [|split; [|split; [|split]]]]; try reflexivity.
  - intros dir. rewrite List.filter_In, negb_true_iff, bool_decide_eq_false.
    reflexivity.
  - apply lookup_delete_eq.
  - intros k Hk. now apply lookup_delete_ne.
  - rewrite (delete_id (delete id' (idb w))) by apply lookup_delete_eq.
    assert (Hidem : forall l : list StoredDirectoryInfo,
              List.filter (fun dir => negb (bool_decide (id dir = id')))
                (List.filter (fun dir => negb (bool_decide (id dir = id'))) l)
              = List.filter (fun dir => negb (bool_decide (id dir = id'))) l).
    { induction l as [|d l IH]; [reflexivity|].
      cbn. destruct (negb (bool_decide (id d = id'))) eqn:E; cbn;
        [rewrite E; now f_equal|exact IH]. }
    unfold setStoredDirectories. cbn. rewrite Hidem. reflexivity.
Qed.

(** X12.  [saveDirectoryHandle] stores the handle under the identifier
    that [crypto.randomUUID] returns and resolves to that identifier:
    reading it back gives the handle, every other key keeps its entry, and
    after [removeDirectoryHandle] on the identifier reading gives nothing.
    None of the three calls the host for anything else or touches the
    page. *)
Theorem save_get_remove handle (w : World H) :
  let saved := saveDirectoryHandle ops handle w in
  let handleId := fst (randomUUID ops (host w)) in
  outcomeOf saved = Ok handleId /\
  eventsOf saved = [] /\
  session (worldOf saved) = session w /\
  outcomeOf (getDirectoryHandle handleId (worldOf saved)) = Ok (Some handle) /\
  (forall k, k <> handleId ->
     outcomeOf (getDirectoryHandle k (worldOf saved)) = Ok (idb w !! k)) /\
  outcomeOf (getDirectoryHandle handleId
               (worldOf (removeDirectoryHandle handleId (worldOf saved))))
    = Ok None.
Proof.
  cbv zeta. rewrite Store.removeDirectoryHandle_run.
  unfold saveDirectoryHandle, bind, idbSet, ret.
  destruct (randomUUID ops (host w)) as [u h1]. run_simpl. cbn.
  repeat split.
  - f_equal. apply lookup_insert_eq.
  - intros k Hk. f_equal. now apply lookup_insert_ne.
  - f_equal. apply lookup_delete_eq.
Qed.

End WithHost.

End Registry.

(** ** Deleting an entry *)

Module Deleting.

Section WithHost.
Context {H : Type} (ops : HostOps H).

(** A mutation operation whose gate denies ends with the notification. *)
Lemma gate_step {A} top (k : bool -> M H A) (w : World H) :
  bind (requestDirectoryPermission ops (frameHandle top) ModeReadWrite) k w =
  let g := gateOn ops (frameHandle top) (host w) in
  match outcomeOf g with
  | Ok b =>
      match k b (mkWorld (host (worldOf g)) (idb w) (session w)) with
      | (r, w2, ev2) => (r, w2, eventsOf g ++ ev2)
      end
  | Thrown e =>
      (Thrown e, mkWorld (host (worldOf g)) (idb w) (session w), eventsOf g)
  end.
Proof.
  cbv zeta. unfold bind.
  rewrite (hostOnly_gate ops (frameHandle top) ModeReadWrite). unfold gateOn.
  destruct (onHost _ (host w)) as [[[b|e] wg] evg]; reflexivity.
Qed.

(** What [deleteItem] does once the gate has granted. *)
Lemma deleteItem_run item top (w : World H) :
  last (currentPathDirectories (session w)) = Some top ->
  outcomeOf (gateOn ops (frameHandle top) (host w)) = Ok true ->
  let dir := frameHandle top in
  let g := gateOn ops dir (host w) in
  let recursive := bool_decide (kind item = KDirectory) in
  deleteItem ops item w =
  match deleteConfirmModal ops item (host (worldOf g)) with
  | (Thrown e, h1) =>
      (Ok tt, mkWorld h1 (idb w) (session w),
       eventsOf g ++ [EvHost (CDeleteConfirmModal item) false;
                      EvToast (toastDeleteFailed item e)])
  | (Ok false, h1) =>
      (Ok tt, mkWorld h1 (idb w) (session w),
       eventsOf g ++ [EvHost (CDeleteConfirmModal item) true])
  | (Ok true, h1) =>
      match removeEntry ops dir (name item) recursive h1 with
      | (Thrown e, h2) =>
          (Ok tt, mkWorld h2 (idb w) (session w),
           eventsOf g ++ [EvHost (CDeleteConfirmModal item) true;
                          EvHost (CRemoveEntry dir (name item) recursive) false;
                          EvToast (toastDeleteFailed item e)])
      | (Ok _, h2) =>
          let l := listOn ops dir h2 in
          match outcomeOf l with
          | Ok items =>
              (Ok tt,
               mkWorld (host (worldOf l)) (idb w) (setFileList items (session w)),
               eventsOf g ++ [EvHost (CDeleteConfirmModal item) true;
                              EvHost (CRemoveEntry dir (name item) recursive) true;
                              EvToast (toastDeleted item)] ++ eventsOf l)
          | Thrown e =>
              (Ok tt, mkWorld (host (worldOf l)) (idb w) (session w),
               eventsOf g ++ [EvHost (CDeleteConfirmModal item) true;
                              EvHost (CRemoveEntry dir (name item) recursive) true;
                              EvToast (toastDeleted item)] ++ eventsOf l
                 ++ [EvToast (toastDeleteFailed item e)])
          end
      end
  end.
Proof.
  intros Htop Hgrant. cbv zeta. unfold deleteItem.
  unfold bind at 1, getSession. run_simpl. rewrite Htop.
  rewrite gate_step. cbv zeta. rewrite Hgrant. cbn [negb].
  unfold tryCatch, bind, hostCall, toastAdd, emit. run_simpl.
  destruct (deleteConfirmModal ops item _) as [[[|]|e] h1];
    cbn [negb]; cbv beta; run_simpl;
    try (cbn; events_norm; reflexivity).
  destruct (removeEntry ops (frameHandle top) (name item) _ h1)
    as [[[]|e] h2]; run_simpl; try (cbn; events_norm; reflexivity).
  unfold modifySession.
  rewrite (hostOnly_listing ops (frameHandle top)). run_simpl. unfold listOn.
  destruct (onHost (listDirectoryEntryItems ops (frameHandle top)) h2)
    as [[[items|e] wl] evl]; run_simpl; cbn; events_norm; reflexivity.
Qed.

(** What [deleteItem] does when the gate denies. *)
Lemma deleteItem_denied item top (w : World H) :
  last (currentPathDirectories (session w)) = Some top ->
  outcomeOf (gateOn ops (frameHandle top) (host w)) = Ok false ->
  let g := gateOn ops (frameHandle top) (host w) in
  deleteItem ops item w =
  (Ok tt, mkWorld (host (worldOf g)) (idb w) (session w),
   eventsOf g ++ [EvToast (toastNoPermission "当前目录没有写入权限，无法删除文件")]).
Proof.
  intros Htop Hdeny. cbv zeta. unfold deleteItem.
  unfold bind at 1, getSession. run_simpl. rewrite Htop.
  rewrite gate_step. cbv zeta. rewrite Hdeny. reflexivity.
Qed.

(** X13.  [deleteItem] never throws, and it removes at most one entry:
    the item it was given, from the directory on top of the stack,
    recursively exactly when the item is a directory, and only after the
    gate has granted and the confirmation dialog has resolved to [true]. *)
Theorem deleteItem_guarded item (w : World H) :
  let r := deleteItem ops item w in
  outcomeOf r = Ok tt /\
  (removals (eventsOf r) = [] \/
   exists top,
     last (currentPathDirectories (session w)) = Some top /\
     outcomeOf (gateOn ops (frameHandle top) (host w)) = Ok true /\
     fst (deleteConfirmModal ops item
            (host (worldOf (gateOn ops (frameHandle top) (host w))))) = Ok true /\
     removals (eventsOf r) =
       [(frameHandle top, name item, bool_decide (kind item = KDirectory))]).
Proof.
  cbv zeta.
  destruct (last (currentPathDirectories (session w))) as [top|] eqn:Htop.
  2:{ unfold deleteItem, bind, getSession. run_simpl. rewrite Htop. cbn. auto. }
  destruct (gateOn_total ops (frameHandle top) (host w)) as [[|] Hb].
  2:{ rewrite (deleteItem_denied item top w Htop Hb). run_simpl.
      split; [reflexivity|]. left. unfold removals. rewrite omap_app. cbn.
      rewrite app_nil_r. apply (Entering.gateOn_quiet ops). }
  rewrite (deleteItem_run item top w Htop Hb).
  pose proof (Entering.gateOn_quiet ops (frameHandle top) (host w)) as (_ & _ & Hg & _).
  destruct (deleteConfirmModal ops item _) as [[[|]|e] h1] eqn:Hmodal; run_simpl.
  - destruct (removeEntry ops (frameHandle top) (name item) _ h1)
      as [[[]|e] h2]; run_simpl.
    + pose proof (Entering.listOn_quiet ops (frameHandle top) h2) as (_ & _ & Hl & _).
      destruct (outcomeOf (listOn ops (frameHandle top) h2)); cbn;
        (split; [reflexivity|]); right; exists top;
        (split; [reflexivity|]); (split; [exact Hb|]);
        (split; [now rewrite Hmodal|]);
        unfold removals in *; rewrite !omap_app, Hg; cbn; rewrite ?omap_app, Hl;
        reflexivity.
    + split; [reflexivity|]. right. exists top.
      split; [reflexivity|]. split; [exact Hb|]. split; [now rewrite Hmodal|].
      unfold removals in *. rewrite omap_app, Hg. reflexivity.
  - split; [reflexivity|]. left. unfold removals in *.
    rewrite omap_app, Hg. reflexivity.
  - split; [reflexivity|]. left. unfold removals in *.
    rewrite omap_app, Hg. reflexivity.
Qed.

(** X14.  Past the gate, [deleteItem] follows the confirmation dialog.  A
    declined dialog leaves everything as it was, without a notification.
    A confirmed one removes the entry; when the removal throws, the failure
    is notified with the message of the error and the snapshot is kept;
    when it succeeds, the success is notified and the directory is listed
    again; and when that listing throws after a removal that succeeded, a
    failure notification follows the success one and the old snapshot,
    still showing the removed entry, stays displayed. *)
Theorem deleteItem_outcomes item top (w : World H) :
  last (currentPathDirectories (session w)) = Some top ->
  outcomeOf (gateOn ops (frameHandle top) (host w)) = Ok true ->
  let r := deleteItem ops item w in
  let dir := frameHandle top in
  let hg := host (worldOf (gateOn ops dir (host w))) in
  let recursive := bool_decide (kind item = KDirectory) in
  (forall h1, deleteConfirmModal ops item hg = (Ok false, h1) ->
     toasts (eventsOf r) = [] /\ session (worldOf r) = session w) /\
  (forall h1 e h2,
     deleteConfirmModal ops item hg = (Ok true, h1) ->
     removeEntry ops dir (name item) recursive h1 = (Thrown e, h2) ->
     toasts (eventsOf r) = [toastDeleteFailed item e] /\
     session (worldOf r) = session w) /\
  (forall h1 h2 items,
     deleteConfirmModal ops item hg = (Ok true, h1) ->
     removeEntry ops dir (name item) recursive h1 = (Ok tt, h2) ->
     outcomeOf (listOn ops dir h2) = Ok items ->
     toasts (eventsOf r) = [toastDeleted item] /\
     session (worldOf r) = setFileList items (session w)) /\
  (forall h1 h2 e,
     deleteConfirmModal ops item hg = (Ok true, h1) ->
     removeEntry ops dir (name item) recursive h1 = (Ok tt, h2) ->
     outcomeOf (listOn ops dir h2) = Thrown e ->
     toasts (eventsOf r) = [toastDeleted item; toastDeleteFailed item e] /\
     session (worldOf r) = session w).
Proof.
  intros Htop Hgrant. cbv zeta.
  rewrite (deleteItem_run item top w Htop Hgrant).
  pose proof (Entering.gateOn_quiet ops (frameHandle top) (host w)) as (Hg & _).
  split; [|split; [|split]].
  - intros h1 Hm. rewrite Hm. cbn.
    rewrite toasts_app, Hg. auto.
  - intros h1 e h2 Hm Hr. rewrite Hm, Hr. cbn.
    rewrite toasts_app, Hg. auto.
  - intros h1 h2 items Hm Hr Hl. rewrite Hm, Hr. cbv zeta. rewrite Hl. cbn.
    rewrite toasts_app, Hg. cbn.
    fold (toasts (eventsOf (listOn ops (frameHandle top) h2))).
    now rewrite (proj1 (Entering.listOn_quiet ops (frameHandle top) h2)).
  - intros h1 h2 e Hm Hr Hl. rewrite Hm, Hr. cbv zeta. rewrite Hl. cbn.
    rewrite toasts_app, Hg. cbn.
    change (omap toastOf ?l) with (toasts l).
    now rewrite toasts_app, (proj1 (Entering.listOn_quiet ops (frameHandle top) h2)).
Qed.

End WithHost.

(** The user declines to delete [report.txt] from [Docs]. *)
Lemma deleteItem_declined :
  eventsOf (deleteItem (scriptedOps declining) (fileItem "report.txt")
              (startWorld (browsing [fileItem "report.txt"])))
  = [EvHost (CQueryPermission docs ModeReadWrite) true;
     EvHost (CDeleteConfirmModal (fileItem "report.txt")) true] /\
  fileList (session (worldOf (deleteItem (scriptedOps declining)
                                (fileItem "report.txt")
                                (startWorld (browsing [fileItem "report.txt"])))))
  = [fileItem "report.txt"].
Proof.
  destruct (deleteItem_outcomes (scriptedOps declining) (fileItem "report.txt")
              (mkFrame "Docs" docs)
              (startWorld (browsing [fileItem "report.txt"])))
    as (Hdecl & _).
  - reflexivity.
  - reflexivity.
  - destruct (Hdecl 2 eq_refl) as [_ Hs].
    split; [vm_compute; reflexivity|rewrite Hs; reflexivity].
Defined.

End Deleting.

(** ** Creating a folder *)

Module Folders.

Section WithHost.
Context {H : Type} (ops : HostOps H).

(** What [createNewFolder] does when the gate denies. *)
Lemma createNewFolder_denied top (w : World H) :
  last (currentPathDirectories (session w)) = Some top ->
  outcomeOf (gateOn ops (frameHandle top) (host w)) = Ok false ->
  let g := gateOn ops (frameHandle top) (host w) in
  createNewFolder ops w =
  (Ok tt, mkWorld (host (worldOf g)) (idb w) (session w),
   eventsOf g ++ [EvToast (toastNoPermission "当前目录没有写入权限，无法创建文件夹")]).
Proof.
  intros Htop Hdeny. cbv zeta. unfold createNewFolder.
  unfold bind at 1, getSession. run_simpl. rewrite Htop.
  rewrite Deleting.gate_step. cbv zeta. rewrite Hdeny. reflexivity.
Qed.

(** What [createNewFolder] does once the gate has granted. *)
Lemma createNewFolder_run top (w : World H) :
  last (currentPathDirectories (session w)) = Some top ->
  outcomeOf (gateOn ops (frameHandle top) (host w)) = Ok true ->
  let dir := frameHandle top in
  let g := gateOn ops dir (host w) in
  let existing := existingFoldersOf (fileList (session w)) in
  createNewFolder ops w =
  match createFolderModal ops existing (host (worldOf g)) with
  | (Thrown e, h1) =>
      (Ok tt, mkWorld h1 (idb w) (session w),
       eventsOf g ++ [EvHost (CCreateFolderModal existing) false;
                      EvToast (toastFolderFailed e)])
  | (Ok None, h1) =>
      (Ok tt, mkWorld h1 (idb w) (session w),
       eventsOf g ++ [EvHost (CCreateFolderModal existing) true])
  | (Ok (Some folder), h1) =>
      if decide (folder = "") then
        (Ok tt, mkWorld h1 (idb w) (session w),
         eventsOf g ++ [EvHost (CCreateFolderModal existing) true])
      else
      match hostGetDirectoryHandle ops dir folder h1 with
      | (Thrown e, h2) =>
          (Ok tt, mkWorld h2 (idb w) (session w),
           eventsOf g ++ [EvHost (CCreateFolderModal existing) true;
                          EvHost (CGetDirectoryHandle dir folder) false;
                          EvToast (toastFolderFailed e)])
      | (Ok _, h2) =>
          let l := listOn ops dir h2 in
          match outcomeOf l with
          | Ok items =>
              (Ok tt,
               mkWorld (host (worldOf l)) (idb w) (setFileList items (session w)),
               eventsOf g ++ [EvHost (CCreateFolderModal existing) true;
                              EvHost (CGetDirectoryHandle dir folder) true;
                              EvToast (toastFolderCreated folder)] ++ eventsOf l)
          | Thrown e =>
              (Ok tt, mkWorld (host (worldOf l)) (idb w) (session w),
               eventsOf g ++ [EvHost (CCreateFolderModal existing) true;
                              EvHost (CGetDirectoryHandle dir folder) true;
                              EvToast (toastFolderCreated folder)] ++ eventsOf l
                 ++ [EvToast (toastFolderFailed e)])
          end
      end
  end.
Proof.
  intros Htop Hgrant. cbv zeta. unfold createNewFolder.
  unfold bind at 1, getSession. run_simpl. rewrite Htop.
  rewrite Deleting.gate_step. cbv zeta. rewrite Hgrant. cbn [negb].
  unfold tryCatch, createNewDirectory, bind, getSession, hostCall, toastAdd,
    emit, existingFoldersOf. run_simpl.
  destruct (createFolderModal ops _ _) as [[[[|a folder]|]|e] h1];
    cbv beta iota; run_simpl; try (cbn; events_norm; reflexivity).
  destruct (decide (String a folder = "")) as [Hempty|_]; [discriminate|].
  destruct (hostGetDirectoryHandle ops (frameHandle top) (String a folder) h1)
    as [[created|e] h2]; run_simpl; try (cbn; events_norm; reflexivity).
  unfold modifySession.
  rewrite (hostOnly_listing ops (frameHandle top)). run_simpl. unfold listOn.
  destruct (onHost (listDirectoryEntryItems ops (frameHandle top)) h2)
    as [[[items|e] wl] evl]; run_simpl; cbn; events_norm; reflexivity.
Qed.

(** X15.  [createNewFolder] never throws, and it creates at most one
    directory: a child of the directory on top of the stack, under the name
    the dialog resolved to, which is not empty, and only after the gate has
    granted.  The dialog is opened with the names of the directories of the
    displayed snapshot. *)
Theorem createNewFolder_guarded (w : World H) :
  let r := createNewFolder ops w in
  outcomeOf r = Ok tt /\
  (creations (eventsOf r) = [] \/
   exists top folder,
     last (currentPathDirectories (session w)) = Some top /\
     outcomeOf (gateOn ops (frameHandle top) (host w)) = Ok true /\
     fst (createFolderModal ops (existingFoldersOf (fileList (session w)))
            (host (worldOf (gateOn ops (frameHandle top) (host w)))))
       = Ok (Some folder) /\
     folder <> "" /\
     creations (eventsOf r) = [(frameHandle top, folder)]).
Proof.
  cbv zeta.
  destruct (last (currentPathDirectories (session w))) as [top|] eqn:Htop.
  2:{ unfold createNewFolder, bind, getSession. run_simpl. rewrite Htop. cbn.
      auto. }
  pose proof (Entering.gateOn_quiet ops (frameHandle top) (host w))
    as (_ & _ & _ & Hg).
  destruct (gateOn_total ops (frameHandle top) (host w)) as [[|] Hb].
  2:{ rewrite (createNewFolder_denied top w Htop Hb). run_simpl.
      split; [reflexivity|]. left. unfold creations in *.
      rewrite omap_app, Hg. reflexivity. }
  rewrite (createNewFolder_run top w Htop Hb).
  destruct (createFolderModal ops _ _) as [[[folder|]|e] h1] eqn:Hmodal;
    run_simpl.
  - destruct (decide (folder = "")) as [Hempty|Hfolder].
    { split; [reflexivity|]. left. unfold creations in *. run_simpl.
      rewrite omap_app, Hg. reflexivity. }
    destruct (hostGetDirectoryHandle ops (frameHandle top) folder h1)
      as [[created|e] h2]; run_simpl.
    + pose proof (Entering.listOn_quiet ops (frameHandle top) h2)
        as (_ & _ & _ & Hl).
      destruct (outcomeOf (listOn ops (frameHandle top) h2)); cbn;
        (split; [reflexivity|]); right; exists top, folder;
        (split; [reflexivity|]); (split; [exact Hb|]);
        (split; [now rewrite Hmodal|]); (split; [exact Hfolder|]);
        unfold creations in *; rewrite !omap_app, Hg; cbn;
        rewrite ?omap_app, Hl; reflexivity.
    + split; [reflexivity|]. right. exists top, folder.
      split; [reflexivity|]. split; [exact Hb|].
      split; [now rewrite Hmodal|]. split; [exact Hfolder|].
      unfold creations in *. rewrite omap_app, Hg. reflexivity.
  - split; [reflexivity|]. left. unfold creations in *.
    rewrite omap_app, Hg. reflexivity.
  - split; [reflexivity|]. left. unfold creations in *.
    rewrite omap_app, Hg. reflexivity.
Qed.

(** X16.  Past the gate, [createNewFolder] follows the dialog.  When the
    dialog resolves to nothing or to the empty name, nothing is notified
    and the session is unchanged.  With a name, a creation that throws is
    notified with the message of the error; a creation that succeeds is
    notified and the directory is listed again into the snapshot; and when
    that listing throws, a failure notification follows the success one
    although the folder exists, and the snapshot is not refreshed. *)
Theorem createNewFolder_outcomes top (w : World H) :
  last (currentPathDirectories (session w)) = Some top ->
  outcomeOf (gateOn ops (frameHandle top) (host w)) = Ok true ->
  let r := createNewFolder ops w in
  let dir := frameHandle top in
  let hg := host (worldOf (gateOn ops dir (host w))) in
  let dialog := createFolderModal ops (existingFoldersOf (fileList (session w))) hg in
  (forall h1, dialog = (Ok None, h1) \/ dialog = (Ok (Some ""), h1) ->
     toasts (eventsOf r) = [] /\ session (worldOf r) = session w) /\
  (forall folder h1 e h2,
     dialog = (Ok (Some folder), h1) -> folder <> "" ->
     hostGetDirectoryHandle ops dir folder h1 = (Thrown e, h2) ->
     toasts (eventsOf r) = [toastFolderFailed e] /\
     session (worldOf r) = session w) /\
  (forall folder h1 created h2 items,
     dialog = (Ok (Some folder), h1) -> folder <> "" ->
     hostGetDirectoryHandle ops dir folder h1 = (Ok created, h2) ->
     outcomeOf (listOn ops dir h2) = Ok items ->
     toasts (eventsOf r) = [toastFolderCreated folder] /\
     session (worldOf r) = setFileList items (session w)) /\
  (forall folder h1 created h2 e,
     dialog = (Ok (Some folder), h1) -> folder <> "" ->
     hostGetDirectoryHandle ops dir folder h1 = (Ok created, h2) ->
     outcomeOf (listOn ops dir h2) = Thrown e ->
     toasts (eventsOf r) = [toastFolderCreated folder; toastFolderFailed e] /\
     session (worldOf r) = session w).
Proof.
  intros Htop Hgrant. cbv zeta.
  rewrite (createNewFolder_run top w Htop Hgrant).
  pose proof (Entering.gateOn_quiet ops (frameHandle top) (host w)) as (Hg & _).
  split; [|split; [|split]].
  - intros h1 [Hm|Hm]; rewrite Hm;
      try (destruct (decide (_ = _)) as [_|Hne]; [|congruence]);
      run_simpl; rewrite toasts_app, Hg; auto.
  - intros folder h1 e h2 Hm Hne Hc. rewrite Hm.
    destruct (decide (folder = "")) as [|_]; [contradiction|].
    rewrite Hc. cbn. rewrite toasts_app, Hg. auto.
  - intros folder h1 created h2 items Hm Hne Hc Hl. rewrite Hm.
    destruct (decide (folder = "")) as [|_]; [contradiction|].
    rewrite Hc. cbv zeta. rewrite Hl. cbn. rewrite toasts_app, Hg. cbn.
    change (omap toastOf ?l) with (toasts l).
    now rewrite (proj1 (Entering.listOn_quiet ops (frameHandle top) h2)).
  - intros folder h1 created h2 e Hm Hne Hc Hl. rewrite Hm.
    destruct (decide (folder = "")) as [|_]; [contradiction|].
    rewrite Hc. cbv zeta. rewrite Hl. cbn. rewrite toasts_app, Hg. cbn.
    change (omap toastOf ?l) with (toasts l).
    now rewrite toasts_app,
      (proj1 (Entering.listOn_quiet ops (frameHandle top) h2)).
Qed.

End WithHost.

(** A folder named [Drafts] is created in [Docs]. *)
Lemma createNewFolder_drafts :
  toasts (eventsOf (createNewFolder (scriptedOps calm)
                      (startWorld (browsing [fileItem "report.txt"]))))
  = [toastFolderCreated "Drafts"] /\
  fileList (session (worldOf (createNewFolder (scriptedOps calm)
                                (startWorld (browsing [fileItem "report.txt"])))))
  = [].
Proof.
  destruct (createNewFolder_outcomes (scriptedOps calm) (mkFrame "Docs" docs)
              (startWorld (browsing [fileItem "report.txt"])))
    as (_ & _ & Hcreated & _).
  - reflexivity.
  - reflexivity.
  - edestruct Hcreated as [Ht Hs].
    + vm_compute. reflexivity.
    + discriminate.
    + vm_compute. reflexivity.
    + vm_compute. reflexivity.
    + split; [exact Ht|rewrite Hs; reflexivity].
Defined.

End Folders.

(** ** A batch of uploads *)

Module Batch.

Section WithHost.
Context {H : Type} (ops : HostOps H).

Lemma assign_other key v table k :
  k <> key -> assign key v table !! k = table !! k.
Proof.
  intros Hk. unfold assign. destruct (decide (key = "__proto__")); [reflexivity|].
  now apply lookup_insert_ne.
Qed.

Lemma assign_proto key v table : key = "__proto__" -> assign key v table = table.
Proof.
  intros Hk. unfold assign. now destruct (decide (key = "__proto__")).
Qed.

Lemma assign_own key v table :
  key <> "__proto__" -> assign key v table !! key = Some v.
Proof.
  intros Hk. unfold assign. destruct (decide (key = "__proto__")); [contradiction|].
  apply lookup_insert_eq.
Qed.

(** The quotient 24117248 / 41943040 is 0.575; as a binary64 value it is a
    little less, and so is its product with 100: the mark is 57. *)
Example percent_binary64 : percent (Qmake 24117248 41943040) = 57%Z.
Proof. vm_compute. reflexivity. Qed.

(** X17.  One turn of the upload loop leaves in the progress table, under
    the name of the file, the mark [-1] when the file is skipped or the
    creation of its handle throws, and the mark [100] as soon as the handle
    was created, whatever [writeFile] resolved to; the marks of the other
    names are not touched.  The one exception is a file named [__proto__]:
    the table is a plain object, the assignments under that name store
    nothing, and the table is left as it was. *)
Theorem uploadFile_marks dir file (w : World H) :
  let r := uploadFile ops dir file w in
  let table := uploadProgress (session (worldOf r)) in
  (forall k, k <> fileName file ->
     table !! k = uploadProgress (session w) !! k) /\
  (fileName file = "__proto__" -> table = uploadProgress (session w)) /\
  (fileName file <> "__proto__" ->
   match findExistingFile (fileList (session w)) (fileName file) with
   | Some _ => table !! fileName file = Some (-1)%Z
   | None =>
       match fst (hostGetFileHandle ops dir (fileName file) (host w)) with
       | Ok _ => table !! fileName file = Some 100%Z
       | Thrown _ => table !! fileName file = Some (-1)%Z
       end
   end).
Proof.
  cbv zeta. unfold uploadFile.
  unfold bind, setProgress, modifySession, getSession, toastAdd, emit, ret.
  run_simpl. cbn [fileList setUploadProgress].
  destruct (findExistingFile (fileList (session w)) (fileName file))
    as [existingFile|] eqn:Efind.
  - cbn. split; [|split].
    + intros k Hk. now rewrite !assign_other.
    + intros Hp. now rewrite !assign_proto.
    + intros Hp. now apply assign_own.
  - unfold tryCatch, createNewFile, hostCall. run_simpl.
    destruct (hostGetFileHandle ops dir (fileName file) (host w))
      as [[fileHandle|e] h1]; run_simpl.
    + match goal with
      | |- context [writeFile ops fileHandle file ?cb ?w1] =>
          destruct (writeFile_trace ops fileHandle file cb w1)
            as (b & Hr & _);
          pose proof (writeFile_session ops fileHandle file cb
                        (fun s =>
                           (forall k, k <> fileName file ->
                              uploadProgress s !! k
                              = uploadProgress (session w) !! k) /\
                           (fileName file = "__proto__" ->
                              uploadProgress s = uploadProgress (session w)))
                        w1) as Hs;
          destruct (writeFile ops fileHandle file cb w1) as [[r w2] ev2]
      end.
      run_simpl. subst r. cbn.
      destruct Hs as [Hother Hproto].
      * intros q s [Ho Hp]. cbn. split.
        -- intros k Hk. rewrite assign_other by exact Hk. now apply Ho.
        -- intros Hn. rewrite assign_proto by exact Hn. now apply Hp.
      * cbn. split.
        -- intros k Hk. now rewrite assign_other.
        -- intros Hn. now rewrite assign_proto.
      * split; [|split].
        -- intros k Hk. rewrite assign_other by exact Hk. now apply Hother.
        -- intros Hn. rewrite assign_proto by exact Hn. now apply Hproto.
        -- intros Hn. now apply assign_own.
    + cbn. split; [|split].
      * intros k Hk. now rewrite !assign_other.
      * intros Hp. now rewrite !assign_proto.
      * intros Hp. now apply assign_own.
Qed.

(** What [handleFileUpload] does once the gate has granted. *)
Lemma handleFileUpload_run files top (w : World H) :
  last (currentPathDirectories (session w)) = Some top ->
  outcomeOf (gateOn ops (frameHandle top) (host w)) = Ok true ->
  let dir := frameHandle top in
  let g := gateOn ops dir (host w) in
  let u := uploadFiles ops dir files
             (mkWorld (host (worldOf g)) (idb w)
                      (setUploadQueue files (setUploading true (session w)))) in
  let l := listOn ops dir (host (worldOf u)) in
  let cleanup s :=
    setUploadProgress ∅ (setUploadQueue [] (setUploading false s)) in
  handleFileUpload ops files w =
  match outcomeOf u, outcomeOf l with
  | Thrown e, _ =>
      (Thrown e,
       mkWorld (host (worldOf u)) (idb (worldOf u))
               (cleanup (session (worldOf u))),
       eventsOf g ++ eventsOf u)
  | Ok _, Ok items =>
      (Ok tt,
       mkWorld (host (worldOf l)) (idb (worldOf u))
               (cleanup (setFileList items (session (worldOf u)))),
       eventsOf g ++ eventsOf u ++ eventsOf l)
  | Ok _, Thrown e =>
      (Thrown e,
       mkWorld (host (worldOf l)) (idb (worldOf u))
               (cleanup (session (worldOf u))),
       eventsOf g ++ eventsOf u ++ eventsOf l)
  end.
Proof.
  intros Htop Hgrant. cbv zeta. unfold handleFileUpload.
  unfold bind at 1, getSession. run_simpl. rewrite Htop.
  rewrite Deleting.gate_step. cbv zeta. rewrite Hgrant. cbn [negb].
  unfold tryFinally, bind, modifySession. run_simpl.
  destruct (uploadFiles ops (frameHandle top) files _) as [[[[]|e] wu] evu];
    run_simpl; [|cbn; events_norm; reflexivity].
  rewrite (hostOnly_listing ops (frameHandle top)). run_simpl. unfold listOn.
  destruct (onHost (listDirectoryEntryItems ops (frameHandle top)) (host wu))
    as [[[items|e] wl] evl]; run_simpl; cbn; events_norm; reflexivity.
Qed.

(** X18.  Past the gate, [handleFileUpload] raises the uploading flag and
    queues the files, uploads them, lists the directory again and, whatever
    happened, lowers the flag and clears the queue and the progress table.
    When the final listing returns, its items become the snapshot.  When it
    throws, the error leaves [handleFileUpload] (there is a [finally] and no
    [catch] around it), the snapshot stays as it was, and the operation adds
    no notification of its own to those of the files. *)
Theorem handleFileUpload_finishes files top (w : World H) :
  last (currentPathDirectories (session w)) = Some top ->
  outcomeOf (gateOn ops (frameHandle top) (host w)) = Ok true ->
  let dir := frameHandle top in
  let g := gateOn ops dir (host w) in
  let r := handleFileUpload ops files w in
  let u := uploadFiles ops dir files
             (mkWorld (host (worldOf g)) (idb w)
                      (setUploadQueue files (setUploading true (session w)))) in
  let l := listOn ops dir (host (worldOf u)) in
  uploading (session (worldOf r)) = false /\
  uploadQueue (session (worldOf r)) = [] /\
  uploadProgress (session (worldOf r)) = ∅ /\
  eventsOf r = eventsOf g ++ eventsOf u ++ eventsOf l /\
  match outcomeOf l with
  | Ok items =>
      outcomeOf r = Ok tt /\ fileList (session (worldOf r)) = items
  | Thrown e =>
      outcomeOf r = Thrown e /\
      fileList (session (worldOf r)) = fileList (session w)
  end.
Proof.
  intros Htop Hgrant. cbv zeta.
  rewrite (handleFileUpload_run files top w Htop Hgrant). cbv zeta.
  match goal with
  | |- context [uploadFiles ops ?d files ?w1] =>
      destruct (Upload.uploadFiles_traces ops d files w1) as (Hr & Hs & _)
  end.
  cbv zeta in Hr, Hs. rewrite Hr.
  destruct (outcomeOf (listOn ops (frameHandle top) _)) as [items|e];
    run_simpl; cbn; repeat split; try reflexivity.
  exact Hs.
Qed.

End WithHost.

(** After the turn of [report.txt] on a calm host its mark is 100; after
    the turn of a file named [__proto__] the table is still empty. *)
Lemma uploadFile_marks_report :
  uploadProgress (session (worldOf (uploadFile (scriptedOps calm) docs report
                                      (startWorld (browsing [])))))
    !! "report.txt" = Some 100%Z /\
  uploadProgress (session (worldOf (uploadFile (scriptedOps calm) docs
                                      (mkFile "__proto__" [] 0 "")
                                      (startWorld (browsing [])))))
  = ∅.
Proof.
  split.
  - apply (uploadFile_marks (scriptedOps calm) docs report
             (startWorld (browsing []))). discriminate.
  - apply (uploadFile_marks (scriptedOps calm) docs (mkFile "__proto__" [] 0 "")
             (startWorld (browsing []))). reflexivity.
Defined.

(** [report.txt] is uploaded to an empty [Docs]. *)
Lemma handleFileUpload_report :
  uploading (session (worldOf (handleFileUpload (scriptedOps calm) [report]
                                 (startWorld (browsing []))))) = false /\
  toasts (eventsOf (handleFileUpload (scriptedOps calm) [report]
                      (startWorld (browsing []))))
  = [toastUploaded "report.txt"].
Proof.
  destruct (handleFileUpload_finishes (scriptedOps calm) [report]
              (mkFrame "Docs" docs) (startWorld (browsing [])))
    as (Hflag & _ & _ & Hev & _).
  - reflexivity.
  - reflexivity.
  - split; [exact Hflag|]. rewrite Hev. vm_compute. reflexivity.
Defined.

End Batch.

(** ** The entries of a directory *)

Module Entries.

Section WithHost.
Context {H : Type} (ops : HostOps H).

Lemma entryItemOf_spec entry (w : World H) :
  let r := entryItemOf ops entry w in
  isOk (outcomeOf r) = allHostOk (eventsOf r) /\
  forall item, outcomeOf r = Ok item ->
    handle item = entry /\ describes item /\
    eventsOf r =
      if bool_decide (handleKind entry = KFile)
      then [EvHost (CGetFile entry) true] else [].
Proof.
  cbv zeta. unfold entryItemOf, describes.
  destruct (decide (handleKind entry = KFile)) as [Hfile|Hdir].
  - rewrite (bool_decide_eq_true_2 _ Hfile).
    unfold bind, hostCall, ret.
    destruct (getFile ops entry (host w)) as [[file|e] h1]; run_simpl;
      (split; [reflexivity|]); intros item [= <-]. cbn.
    destruct (decide (handleKind entry = KFile)); [|contradiction].
    repeat split; eauto.
  - rewrite (bool_decide_eq_false_2 _ Hdir).
    split; [reflexivity|]. intros item [= <-]. cbn.
    destruct (decide (handleKind entry = KFile)); [contradiction|].
    repeat split.
Qed.

Lemma collect_spec entries : forall w : World H,
  let r := collectEntryItems ops entries w in
  isOk (outcomeOf r) = allHostOk (eventsOf r) /\
  forall items, outcomeOf r = Ok items ->
    map handle items = entries /\ Forall describes items /\
    eventsOf r =
      List.map (fun entry => EvHost (CGetFile entry) true)
        (List.filter (fun entry => bool_decide (handleKind entry = KFile))
                     entries).
Proof.
  induction entries as [|entry rest IH]; intros w; cbv zeta.
  - split; [reflexivity|]. intros items [= <-]. repeat split. constructor.
  - cbn [collectEntryItems]. unfold bind, ret.
    destruct (entryItemOf_spec entry w) as [Hok Hitem]. cbv zeta in Hok, Hitem.
    destruct (entryItemOf ops entry w) as [[[item|e] w1] ev1]; run_simpl.
    2:{ split; [exact Hok|]. discriminate. }
    destruct (Hitem item eq_refl) as (Hh & Hd & Hev).
    destruct (IH w1) as [Hok' Hitems]. cbv zeta in Hok', Hitems.
    destruct (collectEntryItems ops rest w1) as [[[items|e] w2] ev2]; run_simpl.
    + unfold allHostOk in *. rewrite !forallb_app, <- Hok, <- Hok'.
      split; [reflexivity|]. intros items' [= <-].
      destruct (Hitems items eq_refl) as (Hhs & Hds & Hevs).
      split; [cbn; congruence|]. split; [now constructor|].
      rewrite app_nil_r, Hev, Hevs. cbn [List.filter].
      destruct (bool_decide (handleKind entry = KFile)); reflexivity.
    + unfold allHostOk in *. rewrite forallb_app, <- Hok, <- Hok'.
      split; [reflexivity|]. discriminate.
Qed.

(** X19.  [listDirectoryEntryItems] is all or nothing: it returns exactly
    when no call on the host threw, so one child whose file cannot be opened
    makes the listing of the whole directory throw; and it only reads: no
    notification, no call that changes the directory tree, and the page and
    the Handle Store are left as they were. *)
Theorem listDirectoryEntryItems_all_or_nothing dir (w : World H) :
  let r := listDirectoryEntryItems ops dir w in
  isOk (outcomeOf r) = allHostOk (eventsOf r) /\
  forallb isRead (eventsOf r) = true /\
  session (worldOf r) = session w /\ idb (worldOf r) = idb w.
Proof.
  cbv zeta. split; [|split].
  - unfold listDirectoryEntryItems, bind, hostCall, ret.
    destruct (values ops dir (host w)) as [[entries|e] h1]; run_simpl;
      [|reflexivity].
    match goal with
    | |- context [collectEntryItems ops entries ?w1] =>
        destruct (collect_spec entries w1) as [Hok _]; cbv zeta in Hok;
        destruct (collectEntryItems ops entries w1) as [[[items|e] w2] ev2]
    end; run_simpl; cbn; rewrite ?app_nil_r; exact Hok.
  - apply Entering.listing_reads.
  - rewrite (hostOnly_listing ops dir w). run_simpl. auto.
Qed.

(** X20.  When [listDirectoryEntryItems] returns, the host was asked for the
    children once and for the file of each child that is a file, in the
    order of enumeration and nothing else; the items are one for each child,
    each with the name and the kind of its handle, and with a size, a date
    and a type exactly when it is a file. *)
Theorem listDirectoryEntryItems_describes dir (w : World H) items :
  outcomeOf (listDirectoryEntryItems ops dir w) = Ok items ->
  exists entries,
    fst (values ops dir (host w)) = Ok entries /\
    eventsOf (listDirectoryEntryItems ops dir w) = readsOf dir entries /\
    Permutation (map handle items) entries /\
    length items = length entries /\
    Forall describes items.
Proof.
  unfold listDirectoryEntryItems, bind, hostCall, ret, readsOf.
  destruct (values ops dir (host w)) as [[entries|e] h1]; run_simpl;
    [|discriminate].
  match goal with
  | |- context [collectEntryItems ops entries ?w1] =>
      destruct (collect_spec entries w1) as [_ Hitems]; cbv zeta in Hitems;
      destruct (collectEntryItems ops entries w1) as [[[enumerated|e] w2] ev2]
  end; run_simpl; [|discriminate].
  intros [= <-]. destruct (Hitems enumerated eq_refl) as (Hh & Hd & Hev).
  pose proof (Listing.arraySort_perm (compareEntryItems ops) enumerated) as Hp.
  exists entries. split; [reflexivity|].
  split; [cbn; now rewrite app_nil_r, Hev|].
  split; [rewrite <- Hh; now apply Permutation_map|].
  split; [rewrite (Permutation_length Hp), <- Hh; now rewrite length_map|].
  rewrite Hp. exact Hd.
Qed.

End WithHost.

(** The sample directory: two files are opened, four items come back. *)
Lemma listing_sample_described :
  exists items,
    outcomeOf (listDirectoryEntryItems (scriptedOps sampleDirectory) docs
                 (startWorld (browsing []))) = Ok items /\
    eventsOf (listDirectoryEntryItems (scriptedOps sampleDirectory) docs
                (startWorld (browsing [])))
    = [EvHost (CValues docs) true;
       EvHost (CGetFile (mkHandle 11 "b.txt" KFile)) true;
       EvHost (CGetFile (mkHandle 12 "A.txt" KFile)) true] /\
    length items = 4.
Proof.
  eexists. split; [vm_compute; reflexivity|].
  edestruct (listDirectoryEntryItems_describes (scriptedOps sampleDirectory)
               docs (startWorld (browsing [])))
    as (entries & Hv & Hev & _ & Hlen & _).
  - vm_compute. reflexivity.
  - injection Hv as <-. split; [exact Hev|exact Hlen].
Defined.

End Entries.

(** ** The stream of a write *)

Module Streams.





Section WithHost.
Context {H : Type} (ops : HostOps H).


End WithHost.

End Streams.
